(** * py-shm-damage: the healthy-structure model response synthesis (hsmr.py)

    A shallow embedding of [shmdamage/hsmr.py]: the objective [fun], and
    [synthesis], the two-stage SLSQP fit that drives it.

    NumPy's float64 arithmetic is kept behind the interface [Scalar]; the
    development instantiates it twice: with the real numbers (exact
    arithmetic, for the statements about sums, norms and scales) and with
    IEEE-754 binary64 (for the statements about division by zero).
    The package pins no NumPy, and [np.linalg.norm] changed with NumPy 2.3
    on empty arrays: the release is a parameter ([NumPy]).
    One-dimensional ndarrays are lists.  SciPy's [minimize] is external
    code: [synthesis] is a tree of calls to it, and a solver is any strategy
    that evaluates the objective finitely often before it answers.

    The program is embedded a second time over a store of array objects
    ([Store]), to state which objects a call reads, creates and writes;
    [Refinement] shows that it returns there what it returns on values. *)

From Stdlib Require Import String ZArith Bool Lia Reals Lra List.
From Stdlib Require Import Floats.SpecFloat.
Import ListNotations.

Set Implicit Arguments.

(** ** Python exceptions and results *)

Inductive exn : Type :=
| ValueError (msg : string)
| IndexError (msg : string)
| CastError       (* UFuncTypeError: a Python int that is no int64 and no
                     uint64 becomes an object array, which numpy does not
                     cast to float64 (OverflowError, once it is no float
                     either) *)
| NoSuchObject.   (* a reference to nothing: no Python program gets here *)

(** ** The NumPy release *)

(** [np.linalg.norm(x, np.inf)] is [abs(x).max()] up to NumPy 2.2, which
    raises on an empty array, and [abs(x).max(initial=0)] from NumPy 2.3
    on, which gives 0.0 there. *)
Inductive NumPy : Type :=
| numpy_upto_2_2
| numpy_from_2_3.

Existing Class NumPy.

Inductive result (A : Type) : Type :=
| Ok (a : A)
| Raise (e : exn).

Arguments Ok {A} a.
Arguments Raise {A} e.

Definition rbind {A B} (r : result A) (k : A -> result B) : result B :=
  match r with
  | Ok a => k a
  | Raise e => Raise e
  end.

Declare Scope result_scope.
Delimit Scope result_scope with result.
Notation "x <- r ;; k" := (rbind r (fun x => k))
  (at level 61, r at next level, right associativity) : result_scope.

(** ** float64 scalars *)

Class Scalar (F : Type) : Type := {
  np_release : NumPy;         (* the NumPy that computes with them *)
  f_of_Z : Z -> F;            (* int -> float64 conversion *)
  f_order_fits : Z -> bool;   (* a Python int that numpy takes as an int64
                                 or uint64 array, not as an object array *)
  f_add : F -> F -> F;
  f_sub : F -> F -> F;
  f_mul : F -> F -> F;
  f_div : F -> F -> F;        (* total: numpy warns on x / 0, it does not raise *)
  f_abs : F -> F;
  f_sqrt : F -> F;
  f_pow : F -> F -> F;        (* the libm power behind [**] *)
  f_max : F -> F -> F;        (* np.maximum *)
  f_min : F -> F -> F;        (* np.minimum *)
  f_nonzero : F -> bool       (* x != 0 *)
}.

(** The order of [np.linalg.norm]: [np.inf], [-np.inf] or a number; the
    signature of [synthesis] declares [norm : int]. *)
Inductive Ord : Type :=
| OrdInf
| OrdNegInf
| OrdInt (p : Z).

(** An endpoint of a bound interval as the caller writes it: a float, or
    one of the [-np.inf] / [np.inf] sentinels of the defaults. *)
Inductive bound (F : Type) : Type :=
| NegInf
| Fin (v : F)
| PosInf.

Arguments NegInf {F}.
Arguments Fin {F} v.
Arguments PosInf {F}.

(** The parameter vector [x]: an ndarray of shape (3,), read at 0, 1, 2. *)
Definition Params (F : Type) : Type := (F * F * F)%type.

(** [bounds]: one (min, max) pair per parameter. *)
Definition Bounds (F : Type) : Type :=
  ((bound F * bound F) * (bound F * bound F) * (bound F * bound F))%type.

(** The arguments of one call [minimize(fun, x0, method=..., args=...,
    bounds=...)]; [bounds] is a keyword that may be left out. *)
Record MinimizeCall (F : Type) : Type := {
  mc_fun : Params F -> list F -> list F -> Ord -> result F;
  mc_x0 : Params F;
  mc_method : string;
  mc_args : list F * list F * Ord;
  mc_bounds : option (Bounds F)
}.

(** The fields of SciPy's OptimizeResult that a caller can read. *)
Record OptimizeResult (F : Type) : Type := {
  res_x : Params F;
  res_success : bool;
  res_status : Z;
  res_fun : F;
  res_nit : nat
}.

Section Numpy.

Context {F : Type} {SF : Scalar F}.

Local Open Scope result_scope.

(** [np.arange(n)]: the int64 indices 0 .. n-1. *)
Definition np_arange (n : nat) : list Z := map Z.of_nat (seq 0 n).

(** [np.cumsum]: add.accumulate, a running sum seeded with the first item. *)
Fixpoint accumulate (acc : F) (l : list F) : list F :=
  match l with
  | [] => []
  | a :: l' => let s := f_add acc a in s :: accumulate s l'
  end.

Definition np_cumsum (l : list F) : list F :=
  match l with
  | [] => []
  | a :: l' => a :: accumulate a l'
  end.

(** [add.reduce]: 0.0 on an empty array. *)
Definition np_sum (l : list F) : F :=
  match l with
  | [] => f_of_Z 0
  | a :: l' => fold_left f_add l' a
  end.

(** [x.max()] and [x.min()]: no identity, hence a ValueError when empty. *)
Definition np_max (l : list F) : result F :=
  match l with
  | [] => Raise (ValueError
      "zero-size array to reduction operation maximum which has no identity")
  | a :: l' => Ok (fold_left f_max l' a)
  end.

(** [x.max(initial=v)]: the reduction starts from [v]. *)
Definition np_max_initial (l : list F) (v : F) : F := fold_left f_max l v.

Definition np_min (l : list F) : result F :=
  match l with
  | [] => Raise (ValueError
      "zero-size array to reduction operation minimum which has no identity")
  | a :: l' => Ok (fold_left f_min l' a)
  end.

(** Array-with-scalar arithmetic. *)
Definition arr_add_s (a : list F) (s : F) : list F := map (fun v => f_add v s) a.
Definition arr_mul_s (a : list F) (s : F) : list F := map (fun v => f_mul v s) a.
Definition arr_div_s (a : list F) (s : F) : list F := map (fun v => f_div v s) a.
(** int64 array times a float: the indices are converted first. *)
Definition iarr_mul_s (a : list Z) (s : F) : list F :=
  map (fun i => f_mul (f_of_Z i) s) a.

Fixpoint zip_with (op : F -> F -> F) (a b : list F) : list F :=
  match a, b with
  | x :: a', y :: b' => op x y :: zip_with op a' b'
  | _, _ => []
  end.

(** Array-with-array arithmetic on shapes (n,) and (k,): equal shapes go
    element by element, a shape (1,) is stretched, anything else raises. *)
Definition broadcast (op : F -> F -> F) (a b : list F) : result (list F) :=
  if Nat.eqb (length a) (length b) then Ok (zip_with op a b)
  else match a, b with
       | [x], _ => Ok (map (fun y => op x y) b)
       | _, [y] => Ok (map (fun x => op x y) a)
       | _, _ => Raise (ValueError "operands could not be broadcast together")
       end.

(** [np.linalg.norm(x, ord)] on a one-dimensional array, with NumPy's chain
    of special cases; the last branch is the general
    [absx = abs(x); absx **= ord; ret = add.reduce(absx);
     ret **= reciprocal(ord, dtype=ret.dtype)], where [reciprocal] raises
    on an order that is no machine integer. *)
Definition np_linalg_norm (x : list F) (ord : Ord) : result F :=
  match ord with
  | OrdInf =>
      match np_release with
      | numpy_upto_2_2 => np_max (map f_abs x)
      | numpy_from_2_3 => Ok (np_max_initial (map f_abs x) (f_of_Z 0))
      end
  | OrdNegInf => np_min (map f_abs x)
  | OrdInt p =>
      if Z.eqb p 2 then Ok (f_sqrt (np_sum (map (fun v => f_mul v v) x)))
      else if Z.eqb p 0 then
        Ok (np_sum (map (fun v => if f_nonzero v then f_of_Z 1 else f_of_Z 0) x))
      else if Z.eqb p 1 then Ok (np_sum (map f_abs x))
      else
        let absx := map (fun v => f_pow (f_abs v) (f_of_Z p)) x in
        let ret := np_sum absx in
        if f_order_fits p then Ok (f_pow ret (f_div (f_of_Z 1) (f_of_Z p)))
        else Raise CastError
  end.

(** ** The objective *)

(** [fun(x, c, m_, norm)] *)
Definition fun_ (x : Params F) (c m_ : list F) (norm : Ord) : result F :=
  let '(dyn_stiff, s_0, m_0) := x in
  let x_locs := np_arange (length m_) in
  (* both operands have the shape of m_ *)
  let __M := zip_with f_add (arr_add_s m_ m_0) (iarr_mul_s x_locs s_0) in
  error <- broadcast f_sub c (arr_div_s __M dyn_stiff) ;;
  loss <- np_linalg_norm error norm ;;
  Ok loss.

End Numpy.

(** ** The minimizer, seen from the caller *)

(** [synthesis] as a tree: it returns, raises, or calls [minimize] and goes
    on with what the call answers. *)
Inductive Prog (F A : Type) : Type :=
| Ret (a : A)
| Throw (e : exn)
| Minimize (call : MinimizeCall F) (k : OptimizeResult F -> Prog F A).

Arguments Ret {F A} a.
Arguments Throw {F A} e.
Arguments Minimize {F A} call k.

Fixpoint pbind {F A B} (p : Prog F A) (f : A -> Prog F B) : Prog F B :=
  match p with
  | Ret a => f a
  | Throw e => Throw e
  | Minimize call k => Minimize call (fun r => pbind (k r) f)
  end.

Definition lift {F A} (r : result A) : Prog F A :=
  match r with
  | Ok a => Ret a
  | Raise e => Throw e
  end.

Definition minimize {F} (call : MinimizeCall F) : Prog F (OptimizeResult F) :=
  Minimize call (fun r => Ret r).

Declare Scope prog_scope.
Delimit Scope prog_scope with prog.
Notation "x <- p ;; k" := (pbind p (fun x => k))
  (at level 61, p at next level, right associativity) : prog_scope.

(** What [synthesis] returns: [(c_h, m_, m, res_x_dict)]. *)
Definition Output (F : Type) : Type :=
  (list F * list F * list F * list (string * F))%type.

Section Synthesis.

Context {F : Type} {SF : Scalar F}.

Local Open Scope prog_scope.
Local Open Scope string_scope.

(** [synthesis(c, q, dyn_stiff_initial_guess, s_0_initial_guess,
    m_0_initial_guess, norm, dyn_stiff_min, dyn_stiff_max, s_0_min, s_0_max,
    m_0_min, m_0_max)] *)
Definition synthesis (c q : list F)
    (dyn_stiff_initial_guess s_0_initial_guess m_0_initial_guess : F)
    (norm : Ord)
    (dyn_stiff_min dyn_stiff_max s_0_min s_0_max m_0_min m_0_max : bound F)
  : Prog F (Output F) :=
  let bounds :=
    ((dyn_stiff_min, dyn_stiff_max), (s_0_min, s_0_max), (m_0_min, m_0_max)) in
  (* First approach using p-norm = 2 *)
  let x0 := (dyn_stiff_initial_guess, s_0_initial_guess, m_0_initial_guess) in
  (* bending moment with null integration constants *)
  let m_ := np_cumsum (np_cumsum q) in
  (* normalization *)
  norm_c <- lift (np_linalg_norm c OrdInf) ;;
  let scaled := arr_mul_s m_ norm_c in
  norm_m <- lift (np_linalg_norm m_ OrdInf) ;;
  let m_ := arr_div_s scaled norm_m in
  res <- minimize {| mc_fun := fun_; mc_x0 := x0; mc_method := "SLSQP";
                     mc_args := (c, m_, OrdInt 2); mc_bounds := Some bounds |} ;;
  let '(dyn_stiff, s_0, m_0) := res_x res in
  (* Final approach using p-norm = norm *)
  let x0 := (dyn_stiff, s_0, m_0) in
  let m_ := np_cumsum (np_cumsum q) in
  norm_c <- lift (np_linalg_norm c OrdInf) ;;
  let scaled := arr_mul_s m_ norm_c in
  norm_m <- lift (np_linalg_norm m_ OrdInf) ;;
  let m_ := arr_div_s scaled norm_m in
  res <- minimize {| mc_fun := fun_; mc_x0 := x0; mc_method := "SLSQP";
                     mc_args := (c, m_, norm); mc_bounds := None |} ;;
  let '(dyn_stiff, s_0, m_0) := res_x res in
  let res_x := (dyn_stiff, s_0, m_0) in
  let m := zip_with f_add (arr_add_s m_ m_0)
                    (iarr_mul_s (np_arange (length m_)) s_0) in
  (* Healthy curvature *)
  let c_h := arr_div_s m dyn_stiff in
  let res_x_dict := [("dyn_stiff", fst (fst res_x));
                     ("s_0", snd (fst res_x));
                     ("m_0", snd res_x)] in
  Ret (c_h, m_, m, res_x_dict).

End Synthesis.

(** ** Solvers *)

(** A run of a minimizer on one call: it asks for the objective at points
    of its choice, finitely often, then answers or fails.  An exception
    raised by the objective passes through [minimize] to the caller. *)
Inductive Strategy (F : Type) : Type :=
| Done (r : OptimizeResult F)
| Fail (e : exn)
| Ask (x : Params F) (k : F -> Strategy F).

Arguments Done {F} r.
Arguments Fail {F} e.
Arguments Ask {F} x k.

(** A solver chooses its strategy from the method, the starting point and
    the bounds. *)
Definition Solver (F : Type) : Type :=
  string -> Params F -> option (Bounds F) -> Strategy F.

Fixpoint run_strategy {F} (obj : Params F -> result F) (s : Strategy F)
  : result (OptimizeResult F) :=
  match s with
  | Done r => Ok r
  | Fail e => Raise e
  | Ask x k =>
      match obj x with
      | Ok v => run_strategy obj (k v)
      | Raise e => Raise e
      end
  end.

(** The objective of a call: [fun(x, *args)]. *)
Definition objective {F} (call : MinimizeCall F) (x : Params F) : result F :=
  let '(c, m_, norm) := mc_args call in mc_fun call x c m_ norm.

Definition answer {F} (solver : Solver F) (call : MinimizeCall F)
  : result (OptimizeResult F) :=
  run_strategy (objective call)
               (solver (mc_method call) (mc_x0 call) (mc_bounds call)).

Fixpoint run {F A} (solver : Solver F) (p : Prog F A) : result A :=
  match p with
  | Ret a => Ok a
  | Throw e => Raise e
  | Minimize call k =>
      match answer solver call with
      | Ok r => run solver (k r)
      | Raise e => Raise e
      end
  end.

(** ** Exact arithmetic: the real numbers *)

Module Exact.

Local Open Scope R_scope.

(** [x ** y] for a base [x >= 0]. *)
Definition Rpow (x y : R) : R :=
  if Req_dec_T x 0 then (if Req_dec_T y 0 then 1 else 0) else Rpower x y.

(** Exact arithmetic has no machine integers: every order converts. *)
#[export] Instance Scalar_R {numpy : NumPy} : Scalar R := {
  np_release := numpy;
  f_of_Z := IZR;
  f_order_fits := fun _ => true;
  f_add := Rplus;
  f_sub := Rminus;
  f_mul := Rmult;
  f_div := Rdiv;
  f_abs := Rabs;
  f_sqrt := sqrt;
  f_pow := Rpow;
  f_max := Rmax;
  f_min := Rmin;
  f_nonzero := fun x => if Req_dec_T x 0 then false else true
}.

End Exact.

(** ** IEEE-754 binary64 *)

Module Binary64.

Definition prec : Z := 53.
Definition emax : Z := 1024.

Definition float64 : Type := spec_float.

Definition of_Z (z : Z) : float64 := binary_normalize prec emax z 0 false.

Definition is_nan (x : float64) : bool :=
  match x with S754_nan => true | _ => false end.

(** [np.maximum] and [np.minimum] hand a NaN on. *)
Definition fmax (x y : float64) : float64 :=
  if is_nan x then x else if is_nan y then y
  else if SFltb x y then y else x.

Definition fmin (x y : float64) : float64 :=
  if is_nan x then x else if is_nan y then y
  else if SFltb y x then y else x.

Section Libm.

(** The C library's [pow] is not part of the arithmetic; it is taken as
    given. *)
Variable pow : float64 -> float64 -> float64.

Context {numpy : NumPy}.

Definition Scalar_float64 : Scalar float64 := {|
  np_release := numpy;
  f_of_Z := of_Z;
  f_order_fits := fun p => (- 2 ^ 63 <=? p)%Z && (p <? 2 ^ 64)%Z;
  f_add := SFadd prec emax;
  f_sub := SFsub prec emax;
  f_mul := SFmul prec emax;
  f_div := SFdiv prec emax;
  f_abs := SFabs;
  f_sqrt := SFsqrt prec emax;
  f_pow := pow;
  f_max := fmax;
  f_min := fmin;
  f_nonzero := fun x => negb (SFeqb x (S754_zero false))
|}.

End Libm.

Definition pinf : float64 := S754_infinity false.
Definition nan : float64 := S754_nan.
Definition zero : float64 := S754_zero false.
Definition one : float64 := of_Z 1.

Definition is_zero (x : float64) : bool :=
  match x with S754_zero _ => true | _ => false end.

(** An infinity of either sign, or NaN. *)
Definition not_finite (x : float64) : bool :=
  match x with S754_infinity _ | S754_nan => true | _ => false end.

(** [+inf] or NaN. *)
Definition inf_or_nan (x : float64) : bool :=
  match x with S754_infinity false | S754_nan => true | _ => false end.

Definition positive (x : float64) : bool := SFltb zero x.

(** The orders the specification allows: infinity, or an integer [p >= 1]
    of a machine integer, [p < 2^63] (that converts to a positive float
    with a positive reciprocal, as every such [p] does). *)
Definition allowed_order (norm : Ord) : bool :=
  match norm with
  | OrdInf => true
  | OrdNegInf => false
  | OrdInt p =>
      (1 <=? p)%Z && (p <? 2 ^ 63)%Z
      && positive (of_Z p) && positive (SFdiv prec emax one (of_Z p))
  end.

(** A power that knows the special values of C's [pow] for a positive
    exponent, and nothing else. *)
Definition pow_specials (x y : float64) : float64 :=
  match x with
  | S754_infinity false => if positive y then pinf else nan
  | _ => nan
  end.

End Binary64.

(** ** Reading the tree of [synthesis] *)

(** The first [minimize] call of a program, and the program that follows
    once this call has answered [r]. *)
Definition first_call {F A} (p : Prog F A) : option (MinimizeCall F) :=
  match p with
  | Minimize call _ => Some call
  | _ => None
  end.

Definition after {F A} (p : Prog F A) (r : OptimizeResult F) : Prog F A :=
  match p with
  | Minimize _ k => k r
  | _ => p
  end.

(** The baseline moment handed to the objective: the third of [args]. *)
Definition call_m_ {F} (call : MinimizeCall F) : list F :=
  snd (fst (mc_args call)).

Definition call_c {F} (call : MinimizeCall F) : list F :=
  fst (fst (mc_args call)).

Definition call_norm {F} (call : MinimizeCall F) : Ord :=
  snd (mc_args call).

(** Lookup in [res_x_dict]. *)
Fixpoint dict_get {F} (d : list (string * F)) (key : string) : option F :=
  match d with
  | [] => None
  | (k, v) :: d' => if String.eqb k key then Some v else dict_get d' key
  end.

(** The moment of lines 73-75 (and again 85-87) as a function of [c] and
    [q]: the double cumulative sum, times the infinity norm of [c], over its
    own infinity norm. *)
Definition baseline {F} {SF : Scalar F} (c q : list F) : result (list F) :=
  let m_ := np_cumsum (np_cumsum q) in
  (norm_c <- np_linalg_norm c OrdInf ;;
   norm_m <- np_linalg_norm m_ OrdInf ;;
   Ok (arr_div_s (arr_mul_s m_ norm_c) norm_m))%result.

(** Lines 94-101: the output built from the final [res.x] and [m_]. *)
Definition finish {F} {SF : Scalar F} (m_ : list F) (x : Params F) : Output F :=
  let '(dyn_stiff, s_0, m_0) := x in
  let m := zip_with f_add (arr_add_s m_ m_0)
                    (iarr_mul_s (np_arange (length m_)) s_0) in
  (arr_div_s m dyn_stiff, m_, m,
   [("dyn_stiff", dyn_stiff); ("s_0", s_0); ("m_0", m_0)]%string).

(** ** Some solvers *)

Section Solvers.

Context {F : Type} {SF : Scalar F}.

(** [np.clip] of one component into its interval, as SLSQP does with the
    starting point. *)
Definition clip1 (b : bound F * bound F) (v : F) : F :=
  let v := match fst b with Fin lo => f_max v lo | _ => v end in
  match snd b with Fin hi => f_min v hi | _ => v end.

Definition clip (bs : option (Bounds F)) (x : Params F) : Params F :=
  match bs with
  | None => x
  | Some (b0, b1, b2) =>
      let '(x0, x1, x2) := x in (clip1 b0 x0, clip1 b1 x1, clip1 b2 x2)
  end.

(** Evaluate the objective once at [x] and answer [x]. *)
Definition stop_at (x : Params F) (success : bool) : Strategy F :=
  Ask x (fun v => Done {| res_x := x; res_success := success;
                           res_status := if success then 0%Z else 9%Z;
                           res_fun := v; res_nit := 1 |}).

(** A run that ends where it starts (inside the box), reporting [success]. *)
Definition stop_at_start (success : bool) : Solver F :=
  fun _ x0 bs => stop_at (clip bs x0) success.

(** A run that stays in the box when it is given one, and that finds the
    point [target] when it is given none. *)
Definition oracle (target : Params F) : Solver F :=
  fun _ x0 bs =>
    match bs with
    | Some _ => stop_at (clip bs x0) true
    | None => stop_at target true
    end.

(** [lo <= v <= hi] for an interval with sentinels, over an order [le]. *)
Definition within (le : F -> F -> Prop) (b : bound F * bound F) (v : F) : Prop :=
  match fst b with
  | NegInf => True
  | Fin lo => le lo v
  | PosInf => False
  end /\
  match snd b with
  | NegInf => False
  | Fin hi => le v hi
  | PosInf => True
  end.

End Solvers.

(** ** The specification's formulas *)

Module SpecWords.

Local Open Scope R_scope.

Definition sum_list (l : list R) : R := fold_right Rplus 0 l.

(** Prefix summation: item [i] is the sum of the items 0 .. i. *)
Definition prefix_sum (l : list R) : list R :=
  map (fun i => sum_list (firstn (S i) l)) (seq 0 (length l)).

(** [v] is the infinity norm of [l]: the maximum absolute value. *)
Definition max_abs (l : list R) (v : R) : Prop :=
  (exists x, In x l /\ Rabs x = v) /\ forall x, In x l -> Rabs x <= v.

(** Residual [e[i] = c[i] - (m_[i] + initial_moment + i * initial_shear) /
    dynamic_stiffness]. *)
Definition residual (x : Params R) (c m_ : list R) (i : nat) : R :=
  let '(dynamic_stiffness, initial_shear, initial_moment) := x in
  nth i c 0 - (nth i m_ 0 + initial_moment + INR i * initial_shear)
              / dynamic_stiffness.

Definition residuals (x : Params R) (c m_ : list R) : list R :=
  map (residual x c m_) (seq 0 (length c)).

(** [sum |e[i]|^p] *)
Definition sum_abs_pow (p : nat) (e : list R) : R :=
  sum_list (map (fun v => Rabs v ^ p) e).

End SpecWords.

(** ** Arrays as objects *)

(** The same program over a store of array objects, to follow which
    objects a call creates, reads and writes.  A reference is the index of
    its object; every NumPy operation of the source allocates its result;
    the only in-place update is the [absx **= ord] inside
    [np.linalg.norm], on an array that [norm] has just made. *)
Module Store.

Inductive ndarray (F : Type) : Type :=
| FloatArr (a : list F)
| IntArr (a : list Z).

Arguments FloatArr {F} a.
Arguments IntArr {F} a.

Definition ref : Type := nat.

Definition Heap (F : Type) : Type := list (ndarray F).

Definition M (F A : Type) : Type := Heap F -> result A * Heap F.

Definition ret {F A} (a : A) : M F A := fun h => (Ok a, h).

Definition raise {F A} (e : exn) : M F A := fun h => (Raise e, h).

Definition bind {F A B} (m : M F A) (k : A -> M F B) : M F B :=
  fun h => match m h with
           | (Ok a, h') => k a h'
           | (Raise e, h') => (Raise e, h')
           end.

Definition of_result {F A} (r : result A) : M F A := fun h => (r, h).

Declare Scope store_scope.
Delimit Scope store_scope with store.
Notation "x <- m ;; k" := (bind m (fun x => k))
  (at level 61, m at next level, right associativity) : store_scope.
Notation "' pat <- m ;; k" := (bind m (fun x => match x with pat => k end))
  (at level 61, pat pattern, m at next level, right associativity) : store_scope.

Definition alloc {F} (a : ndarray F) : M F ref :=
  fun h => (Ok (length h), h ++ [a]).

Definition load {F} (r : ref) : M F (ndarray F) :=
  fun h => match nth_error h r with
           | Some a => (Ok a, h)
           | None => (Raise NoSuchObject, h)
           end.

Fixpoint update {A} (l : list A) (i : nat) (a : A) : list A :=
  match l, i with
  | [], _ => []
  | _ :: l', O => a :: l'
  | b :: l', S i' => b :: update l' i' a
  end.

Definition store {F} (r : ref) (a : ndarray F) : M F unit :=
  fun h => match nth_error h r with
           | Some _ => (Ok tt, update h r a)
           | None => (Raise NoSuchObject, h)
           end.

Section Objects.

Context {F : Type} {SF : Scalar F}.

Local Open Scope store_scope.
Local Open Scope string_scope.

(** An int64 array is cast to float64 where float arithmetic reads it. *)
Definition as_float (a : ndarray F) : list F :=
  match a with
  | FloatArr l => l
  | IntArr l => map f_of_Z l
  end.

Definition load_f (r : ref) : M F (list F) :=
  a <- load r ;; ret (as_float a).

Definition len (r : ref) : M F nat :=
  a <- load_f r ;; ret (length a).

(** [a[i]] *)
Definition getitem (r : ref) (i : nat) : M F F :=
  a <- load_f r ;;
  match nth_error a i with
  | Some v => ret v
  | None => raise (IndexError "index is out of bounds")
  end.

Definition np_array (l : list F) : M F ref := alloc (FloatArr l).

Definition np_arange_h (n : nat) : M F ref := alloc (IntArr (np_arange n)).

Definition np_cumsum_h (r : ref) : M F ref :=
  a <- load_f r ;; alloc (FloatArr (np_cumsum a)).

Definition add_s (r : ref) (s : F) : M F ref :=
  a <- load_f r ;; alloc (FloatArr (arr_add_s a s)).

Definition mul_s (r : ref) (s : F) : M F ref :=
  a <- load_f r ;; alloc (FloatArr (arr_mul_s a s)).

Definition div_s (r : ref) (s : F) : M F ref :=
  a <- load_f r ;; alloc (FloatArr (arr_div_s a s)).

Definition binop (op : F -> F -> F) (r1 r2 : ref) : M F ref :=
  a <- load_f r1 ;;
  b <- load_f r2 ;;
  v <- of_result (broadcast op a b) ;;
  alloc (FloatArr v).

Definition np_linalg_norm_h (r : ref) (ord : Ord) : M F F :=
  x <- load_f r ;;
  match ord with
  | OrdInf =>
      absx <- alloc (FloatArr (map f_abs x)) ;;
      a <- load_f absx ;;
      match np_release with
      | numpy_upto_2_2 => of_result (np_max a)
      | numpy_from_2_3 => ret (np_max_initial a (f_of_Z 0))
      end
  | OrdNegInf =>
      absx <- alloc (FloatArr (map f_abs x)) ;;
      a <- load_f absx ;; of_result (np_min a)
  | OrdInt p =>
      if Z.eqb p 2 then
        (* x.dot(x) *)
        ret (f_sqrt (np_sum (map (fun v => f_mul v v) x)))
      else if Z.eqb p 0 then
        nz <- alloc (FloatArr
                (map (fun v => if f_nonzero v then f_of_Z 1 else f_of_Z 0) x)) ;;
        a <- load_f nz ;; ret (np_sum a)
      else if Z.eqb p 1 then
        absx <- alloc (FloatArr (map f_abs x)) ;;
        a <- load_f absx ;; ret (np_sum a)
      else
        absx <- alloc (FloatArr (map f_abs x)) ;;
        a <- load_f absx ;;
        (* absx **= ord *)
        _ <- store absx (FloatArr (map (fun v => f_pow v (f_of_Z p)) a)) ;;
        a <- load_f absx ;;
        let ret_ := np_sum a in
        if f_order_fits p then ret (f_pow ret_ (f_div (f_of_Z 1) (f_of_Z p)))
        else raise CastError
  end.

(** [fun(x, c, m_, norm)] on references. *)
Definition fun_h (x c m_ : ref) (norm : Ord) : M F F :=
  dyn_stiff <- getitem x 0 ;;
  s_0 <- getitem x 1 ;;
  m_0 <- getitem x 2 ;;
  n <- len m_ ;;
  x_locs <- np_arange_h n ;;
  t1 <- add_s m_ m_0 ;;
  t2 <- mul_s x_locs s_0 ;;
  __M <- binop f_add t1 t2 ;;
  t3 <- div_s __M dyn_stiff ;;
  error <- binop f_sub c t3 ;;
  loss <- np_linalg_norm_h error norm ;;
  ret loss.

(** A solver's run: each point it asks about, and its answer [res.x], is a
    new array. *)
Fixpoint run_strategy_h (obj : ref -> M F F) (s : Strategy F)
  : M F (ref * OptimizeResult F) :=
  match s with
  | Done r =>
      let '(a, b, c) := res_x r in
      xr <- np_array [a; b; c] ;; ret (xr, r)
  | Fail e => raise e
  | Ask x k =>
      let '(a, b, c) := x in
      xr <- np_array [a; b; c] ;;
      v <- obj xr ;;
      run_strategy_h obj (k v)
  end.

Definition minimize_h (solver : Solver F)
    (f : ref -> ref -> ref -> Ord -> M F F) (x0 : ref) (method : string)
    (args : ref * ref * Ord) (bounds : option (Bounds F))
  : M F (ref * OptimizeResult F) :=
  let '(c, m_, norm) := args in
  v <- load_f x0 ;;
  match v with
  | [a; b; d] =>
      run_strategy_h (fun xr => f xr c m_ norm) (solver method (a, b, d) bounds)
  | _ => raise (ValueError "x0 must have three items")
  end.

(** [synthesis] on references; it returns the references of [c_h], [m_]
    and [m], and the dictionary of scalars. *)
Definition synthesis_h (solver : Solver F) (c q : ref)
    (dyn_stiff_initial_guess s_0_initial_guess m_0_initial_guess : F)
    (norm : Ord)
    (dyn_stiff_min dyn_stiff_max s_0_min s_0_max m_0_min m_0_max : bound F)
  : M F (ref * ref * ref * list (string * F)) :=
  let bounds :=
    ((dyn_stiff_min, dyn_stiff_max), (s_0_min, s_0_max), (m_0_min, m_0_max)) in
  x0 <- np_array [dyn_stiff_initial_guess; s_0_initial_guess;
                  m_0_initial_guess] ;;
  t <- np_cumsum_h q ;;
  m_ <- np_cumsum_h t ;;
  norm_c <- np_linalg_norm_h c OrdInf ;;
  scaled <- mul_s m_ norm_c ;;
  norm_m <- np_linalg_norm_h m_ OrdInf ;;
  m_ <- div_s scaled norm_m ;;
  res <- minimize_h solver fun_h x0 "SLSQP" (c, m_, OrdInt 2) (Some bounds) ;;
  dyn_stiff <- getitem (fst res) 0 ;;
  s_0 <- getitem (fst res) 1 ;;
  m_0 <- getitem (fst res) 2 ;;
  x0 <- np_array [dyn_stiff; s_0; m_0] ;;
  t <- np_cumsum_h q ;;
  m_ <- np_cumsum_h t ;;
  norm_c <- np_linalg_norm_h c OrdInf ;;
  scaled <- mul_s m_ norm_c ;;
  norm_m <- np_linalg_norm_h m_ OrdInf ;;
  m_ <- div_s scaled norm_m ;;
  res <- minimize_h solver fun_h x0 "SLSQP" (c, m_, norm) None ;;
  dyn_stiff <- getitem (fst res) 0 ;;
  s_0 <- getitem (fst res) 1 ;;
  m_0 <- getitem (fst res) 2 ;;
  n <- len m_ ;;
  x_locs <- np_arange_h n ;;
  t1 <- add_s m_ m_0 ;;
  t2 <- mul_s x_locs s_0 ;;
  m <- binop f_add t1 t2 ;;
  c_h <- div_s m dyn_stiff ;;
  ret (c_h, m_, m, [("dyn_stiff", dyn_stiff); ("s_0", s_0); ("m_0", m_0)]).

(** The items of a parameter vector, as the array that holds them. *)
Definition params_list (x : Params F) : list F :=
  let '(a, b, c) := x in [a; b; c].

(** [h'] keeps every object of [h] as it is. *)
Definition preserves (h h' : Heap F) : Prop :=
  forall r a, nth_error h r = Some a -> nth_error h' r = Some a.

(** [r] is an object of [h'] that [h] does not have. *)
Definition fresh_in (h h' : Heap F) (r : ref) : Prop :=
  length h <= r < length h'.

(** A computation grows the store when it only adds objects behind the
    ones it found. *)
Definition grows {A} (m : M F A) : Prop :=
  forall h, exists t, snd (m h) = (h ++ t)%list.

(** A computation returns a new object when its result is a reference to
    one of the objects it added. *)
Definition returns_new (m : M F ref) : Prop :=
  forall h r, fst (m h) = Ok r -> length h <= r < length (snd (m h)).

End Objects.

End Store.

(** ** Scenarios *)

Module Scenarios.

Import Exact.
Local Open Scope R_scope.

Section Release.

Context {numpy : NumPy}.

(** The scenario of the specification: a unit point load at mid-span. *)
Definition c_mid : list R := [0; 1; 2; 1; 0].
Definition q_mid : list R := [0; 0; 1; 0; 0].

(** A curvature of one sample against a load of three: NumPy stretches the
    single sample, and the call goes through. *)
Definition prog_c1_q3 : Prog R (Output R) :=
  synthesis [1] [1; 2; 3] 1 0 0 (OrdInt 1)
            NegInf PosInf NegInf PosInf NegInf PosInf.

(** A starting stiffness of 5 against the interval [0, 1]. *)
Definition prog_guess_out : Prog R (Output R) :=
  synthesis [1; 2; 3] [1; 0; 0] 5 0 0 (OrdInt 1)
            (Fin 0) (Fin 1) NegInf PosInf NegInf PosInf.

(** Two final answers at the same point, one converged, one not. *)
Definition converged (x : Params R) : OptimizeResult R :=
  {| res_x := x; res_success := true; res_status := 0;
     res_fun := 0; res_nit := 3 |}.

Definition not_converged (x : Params R) : OptimizeResult R :=
  {| res_x := x; res_success := false; res_status := 9;
     res_fun := 0; res_nit := 100 |}.

Definition prog_mid : Prog R (Output R) :=
  synthesis c_mid q_mid 1 0 0 (OrdInt 1)
            NegInf PosInf NegInf PosInf NegInf PosInf.

(** A ramp that is exactly the baseline moment of the mid-span load, and a
    caller who wants the stiffness in [2, 3]. *)
Definition c_ramp : list R := [0; 0; 1; 2; 3].

Definition prog_box : Prog R (Output R) :=
  synthesis c_ramp q_mid 2 0 0 (OrdInt 1)
            (Fin 2) (Fin 3) NegInf PosInf NegInf PosInf.

End Release.

End Scenarios.

(** The release on which the scenarios are run where one has to be
    named. *)
Module Today.

#[export] Instance numpy_today : NumPy := numpy_from_2_3.

End Today.

(** * Properties *)

(** ** Shapes *)

Section Shapes.

Context {F : Type} {SF : Scalar F}.

Lemma accumulate_length (acc : F) (l : list F) :
  length (accumulate acc l) = length l.
Proof.
  revert acc; induction l as [|a l IH]; intros acc; simpl; [reflexivity|].
  now rewrite IH.
Qed.

Lemma np_cumsum_length (l : list F) : length (np_cumsum l) = length l.
Proof.
  destruct l as [|a l]; simpl; [reflexivity|].
  now rewrite accumulate_length.
Qed.

Lemma zip_with_length (op : F -> F -> F) (a b : list F) :
  length a = length b -> length (zip_with op a b) = length a.
Proof.
  revert b; induction a as [|x a IH]; intros [|y b] H; simpl in *;
    try reflexivity; try discriminate.
  f_equal; apply IH; lia.
Qed.

Lemma np_arange_length (n : nat) : length (np_arange n) = n.
Proof. unfold np_arange; now rewrite length_map, length_seq. Qed.

Lemma moment_length (m_ : list F) (m_0 s_0 : F) :
  length (zip_with f_add (arr_add_s m_ m_0)
                   (iarr_mul_s (np_arange (length m_)) s_0)) = length m_.
Proof.
  rewrite zip_with_length; unfold arr_add_s, iarr_mul_s;
    rewrite !length_map; [reflexivity|].
  now rewrite np_arange_length.
Qed.

Lemma np_max_nonempty (l : list F) :
  l <> [] -> exists v, np_max l = Ok v.
Proof. destruct l; [congruence|]; intros _; simpl; eauto. Qed.

Lemma norm_inf_nonempty (l : list F) :
  l <> [] -> exists v, np_linalg_norm l OrdInf = Ok v.
Proof.
  intros H; cbn [np_linalg_norm]. destruct np_release; [|eauto].
  apply np_max_nonempty. destruct l; [congruence|discriminate].
Qed.

(** The infinity norm of an empty array, release by release. *)
Lemma norm_inf_empty :
  np_release = numpy_upto_2_2 ->
  np_linalg_norm (@nil F) OrdInf =
  Raise (ValueError
    "zero-size array to reduction operation maximum which has no identity").
Proof. intros E; cbn [np_linalg_norm]; rewrite E; reflexivity. Qed.

Lemma norm_inf_empty_zero :
  np_release = numpy_from_2_3 ->
  np_linalg_norm (@nil F) OrdInf = Ok (f_of_Z 0).
Proof. intros E; cbn [np_linalg_norm]; rewrite E; reflexivity. Qed.

Lemma norm_inf_always (l : list F) :
  np_release = numpy_from_2_3 -> exists v, np_linalg_norm l OrdInf = Ok v.
Proof. intros E; cbn [np_linalg_norm]; rewrite E; eauto. Qed.

Lemma np_cumsum_nonempty (l : list F) : l <> [] -> np_cumsum l <> [].
Proof. destruct l; [congruence|discriminate]. Qed.

Lemma baseline_ok (c q : list F) :
  c <> [] -> q <> [] ->
  exists m_, baseline c q = Ok m_ /\ length m_ = length q.
Proof.
  intros Hc Hq; unfold baseline.
  destruct (norm_inf_nonempty Hc) as [nc ->].
  destruct (norm_inf_nonempty (np_cumsum_nonempty (np_cumsum_nonempty Hq)))
    as [nm ->].
  simpl; eexists; split; [reflexivity|].
  unfold arr_div_s, arr_mul_s; now rewrite !length_map, !np_cumsum_length.
Qed.

(** Up to NumPy 2.2 an empty [c] or [q] stops the normalisation; from
    NumPy 2.3 on nothing does. *)
Lemma baseline_empty (c q : list F) :
  np_release = numpy_upto_2_2 -> c = [] \/ q = [] ->
  baseline c q =
  Raise (ValueError
    "zero-size array to reduction operation maximum which has no identity").
Proof.
  intros E H; unfold baseline.
  destruct c as [|x c]; [now rewrite (norm_inf_empty E)|].
  destruct H as [H | ->]; [discriminate|].
  destruct (@norm_inf_nonempty (x :: c)) as [nc ->]; [discriminate|].
  cbn [rbind np_cumsum]. now rewrite (norm_inf_empty E).
Qed.

Lemma baseline_always (c q : list F) :
  np_release = numpy_from_2_3 ->
  exists m_, baseline c q = Ok m_ /\ length m_ = length q.
Proof.
  intros E; unfold baseline.
  destruct (norm_inf_always c E) as [nc ->].
  destruct (norm_inf_always (np_cumsum (np_cumsum q)) E) as [nm ->].
  cbn [rbind]; eexists; split; [reflexivity|].
  unfold arr_div_s, arr_mul_s; now rewrite !length_map, !np_cumsum_length.
Qed.

Lemma baseline_length (c q m_ : list F) :
  baseline c q = Ok m_ -> length m_ = length q.
Proof.
  unfold baseline; intros H.
  destruct (np_linalg_norm c OrdInf); [|discriminate].
  destruct (np_linalg_norm (np_cumsum (np_cumsum q)) OrdInf); [|discriminate].
  simpl in H; injection H as <-.
  unfold arr_div_s, arr_mul_s; now rewrite !length_map, !np_cumsum_length.
Qed.

Lemma finish_lengths (m_ : list F) (x : Params F) :
  let '(c_h, m_', m, _) := finish m_ x in
  length c_h = length m_ /\ m_' = m_ /\ length m = length m_.
Proof.
  destruct x as [[k s] m0]; simpl.
  unfold arr_div_s; rewrite length_map, moment_length; auto.
Qed.

End Shapes.

(** ** The tree of [synthesis] *)

Section Tree.

Context {F : Type} {SF : Scalar F}.

Variables (c q : list F) (g_dyn_stiff g_s_0 g_m_0 : F) (norm : Ord).
Variables (dyn_stiff_min dyn_stiff_max s_0_min s_0_max m_0_min m_0_max : bound F).

Let prog : Prog F (Output F) :=
  synthesis c q g_dyn_stiff g_s_0 g_m_0 norm
            dyn_stiff_min dyn_stiff_max s_0_min s_0_max m_0_min m_0_max.

(** Both stages compute the same two norms; split on what they give. *)
Ltac split_on_norms H :=
  unfold baseline, prog, synthesis in *;
  destruct (np_linalg_norm c OrdInf) as [nc|e1];
    cbn [rbind pbind lift] in *;
    [destruct (np_linalg_norm (np_cumsum (np_cumsum q)) OrdInf) as [nm|e2];
       cbn [rbind pbind lift minimize first_call after] in *|];
    try discriminate H.

Lemma synthesis_throws (e : exn) :
  baseline c q = Raise e -> prog = Throw e.
Proof. intros H; split_on_norms H; now injection H as ->. Qed.

Lemma synthesis_stage_A (m_ : list F) :
  baseline c q = Ok m_ ->
  first_call prog =
  Some {| mc_fun := fun_; mc_x0 := (g_dyn_stiff, g_s_0, g_m_0);
          mc_method := "SLSQP"; mc_args := (c, m_, OrdInt 2);
          mc_bounds := Some ((dyn_stiff_min, dyn_stiff_max),
                             (s_0_min, s_0_max), (m_0_min, m_0_max)) |}.
Proof. intros H; split_on_norms H; injection H as <-; reflexivity. Qed.

Lemma synthesis_stage_B (m_ : list F) (rA : OptimizeResult F) :
  baseline c q = Ok m_ ->
  first_call (after prog rA) =
  Some {| mc_fun := fun_; mc_x0 := res_x rA; mc_method := "SLSQP";
          mc_args := (c, m_, norm); mc_bounds := None |}.
Proof.
  intros H; split_on_norms H; injection H as <-.
  destruct (res_x rA) as [[k s] m0]; reflexivity.
Qed.

Lemma synthesis_finish (m_ : list F) (rA rB : OptimizeResult F) :
  baseline c q = Ok m_ ->
  after (after prog rA) rB = Ret (finish m_ (res_x rB)).
Proof.
  intros H; split_on_norms H; injection H as <-.
  destruct (res_x rA) as [[k s] m0]; cbn [pbind after].
  unfold finish; destruct (res_x rB) as [[k' s'] m0']; reflexivity.
Qed.

(** Running the tree with a solver. *)
Lemma synthesis_run (solver : Solver F) (m_ : list F) :
  baseline c q = Ok m_ ->
  run solver prog =
  (rA <- answer solver
           {| mc_fun := fun_; mc_x0 := (g_dyn_stiff, g_s_0, g_m_0);
              mc_method := "SLSQP"; mc_args := (c, m_, OrdInt 2);
              mc_bounds := Some ((dyn_stiff_min, dyn_stiff_max),
                                 (s_0_min, s_0_max), (m_0_min, m_0_max)) |} ;;
   rB <- answer solver
           {| mc_fun := fun_; mc_x0 := res_x rA; mc_method := "SLSQP";
              mc_args := (c, m_, norm); mc_bounds := None |} ;;
   Ok (finish m_ (res_x rB)))%result.
Proof.
  intros H.
  pose proof (synthesis_stage_A H) as HA.
  pose proof (fun rA => synthesis_stage_B rA H) as HB.
  pose proof (fun rA rB => synthesis_finish rA rB H) as HF.
  destruct prog as [a|e|callA kA]; simpl in HA; try discriminate.
  injection HA as ->; simpl.
  destruct (answer solver _) as [rA|e]; simpl; [|reflexivity].
  specialize (HB rA); specialize (HF rA); simpl in HB, HF.
  destruct (kA rA) as [a|e|callB kB]; simpl in HB; try discriminate.
  injection HB as ->; simpl.
  destruct (answer solver _) as [rB|e]; simpl; [|reflexivity].
  specialize (HF rB); simpl in HF; now rewrite HF.
Qed.

End Tree.

(** ** The two stages *)

Section Stages.

Context {F : Type} {SF : Scalar F}.

Variables (c q : list F) (g_dyn_stiff g_s_0 g_m_0 : F) (norm : Ord).
Variables (dyn_stiff_min dyn_stiff_max s_0_min s_0_max m_0_min m_0_max : bound F).

Let prog : Prog F (Output F) :=
  synthesis c q g_dyn_stiff g_s_0 g_m_0 norm
            dyn_stiff_min dyn_stiff_max s_0_min s_0_max m_0_min m_0_max.

(** C7.  Whatever [c] and [q] are, either [synthesis] raises before stage
    A, or it calls the minimizer for stage A and, whatever that call
    answers, for stage B with the very same baseline moment [m_] among the
    arguments of the objective; that [m_] is also the one returned at the
    end. *)
Theorem stage_B_baseline_is_stage_A_baseline :
  (exists e, prog = Throw e) \/
  (exists callA,
     first_call prog = Some callA /\
     forall rA, exists callB,
       first_call (after prog rA) = Some callB /\
       call_m_ callB = call_m_ callA /\
       forall rB, exists c_h m d,
         after (after prog rA) rB = Ret (c_h, call_m_ callA, m, d)).
Proof.
  destruct (baseline c q) as [m_|e] eqn:Hb.
  - right. eexists; split; [apply synthesis_stage_A; exact Hb|].
    intros rA; eexists; split; [apply synthesis_stage_B; exact Hb|].
    split; [reflexivity|].
    intros rB. unfold prog.
    rewrite synthesis_finish with (m_ := m_) by exact Hb.
    unfold finish, call_m_; destruct (res_x rB) as [[k s] m0]; simpl.
    eauto.
  - left; exists e; now apply synthesis_throws.
Qed.

(** C8.  For [c] and [q] of one length [n >= 1]: once both minimizer calls
    have answered, [synthesis] returns, and in every run that returns, the
    healthy curvature [c_h], the baseline moment [m_] and the fitted moment
    [m] have length exactly [n]. *)
Theorem synthesis_outputs_have_length_n (n : nat) :
  length c = n -> length q = n -> 1 <= n ->
  (forall rA rB, exists out, after (after prog rA) rB = Ret out) /\
  (forall solver c_h m_ m d,
     run solver prog = Ok (c_h, m_, m, d) ->
     length c_h = n /\ length m_ = n /\ length m = n).
Proof.
  intros Hc Hq Hn.
  assert (Hc' : c <> []) by (intros ->; simpl in Hc; lia).
  assert (Hq' : q <> []) by (intros ->; simpl in Hq; lia).
  destruct (baseline_ok Hc' Hq') as (b & Hb & Hlen).
  split.
  - intros rA rB; eexists.
    apply synthesis_finish with (m_ := b); exact Hb.
  - intros solver c_h m_ m d Hrun.
    unfold prog in Hrun; rewrite synthesis_run with (m_ := b) in Hrun by exact Hb.
    destruct (answer solver _) as [rA|e]; simpl in Hrun; [|discriminate].
    destruct (answer solver _) as [rB|e]; simpl in Hrun; [|discriminate].
    injection Hrun as Hrun.
    pose proof (finish_lengths b (res_x rB)) as HL.
    rewrite Hrun in HL. destruct HL as (H1 & H2 & H3); subst m_.
    rewrite H1, H3, Hlen; auto.
Qed.

End Stages.

(** ** What [synthesis] checks, and what it hands on *)

Section Validation.

Context {F : Type} {SF : Scalar F}.

Lemma broadcast_mismatch (op : F -> F -> F) (a b : list F) :
  length a <> length b -> length a <> 1 -> length b <> 1 ->
  broadcast op a b =
  Raise (ValueError "operands could not be broadcast together").
Proof.
  intros Hab Ha Hb; unfold broadcast.
  destruct (Nat.eqb_spec (length a) (length b)) as [E|_]; [contradiction|].
  destruct a as [|x [|x' a]]; destruct b as [|y [|y' b]]; simpl in *;
    try reflexivity; contradiction.
Qed.

Lemma broadcast_equal (op : F -> F -> F) (a b : list F) :
  length a = length b -> broadcast op a b = Ok (zip_with op a b).
Proof.
  intros E; unfold broadcast.
  now destruct (Nat.eqb_spec (length a) (length b)).
Qed.

Lemma fun_shape_mismatch (x : Params F) (c m_ : list F) (norm : Ord) :
  length c <> length m_ -> length c <> 1 -> length m_ <> 1 ->
  fun_ x c m_ norm =
  Raise (ValueError "operands could not be broadcast together").
Proof.
  intros H H1 H2; unfold fun_; destruct x as [[k s] m0].
  rewrite broadcast_mismatch; [reflexivity| | |];
    unfold arr_div_s; rewrite ?length_map, ?moment_length; assumption.
Qed.

Lemma broadcast_stretch (op : F -> F -> F) (a b : list F) :
  length a = 1 \/ length b = 1 -> exists v, broadcast op a b = Ok v.
Proof.
  intros H; unfold broadcast.
  destruct (Nat.eqb (length a) (length b)); [eauto|].
  destruct a as [|x [|x' a]]; destruct b as [|y [|y' b]]; simpl in *; eauto;
    destruct H; discriminate.
Qed.

Lemma fun_stretch (x : Params F) (c m_ : list F) :
  length c = 1 \/ length m_ = 1 -> exists v, fun_ x c m_ (OrdInt 2) = Ok v.
Proof.
  intros H; unfold fun_; destruct x as [[k s] m0].
  destruct (broadcast_stretch f_sub c
              (arr_div_s (zip_with f_add (arr_add_s m_ m0)
                            (iarr_mul_s (np_arange (length m_)) s)) k))
    as [err ->].
  - unfold arr_div_s; now rewrite length_map, moment_length.
  - cbn; eauto.
Qed.

Variables (c q : list F) (g_dyn_stiff g_s_0 g_m_0 : F) (norm : Ord).
Variables (dyn_stiff_min dyn_stiff_max s_0_min s_0_max m_0_min m_0_max : bound F).

Let prog : Prog F (Output F) :=
  synthesis c q g_dyn_stiff g_s_0 g_m_0 norm
            dyn_stiff_min dyn_stiff_max s_0_min s_0_max m_0_min m_0_max.

Let bounds : Bounds F :=
  ((dyn_stiff_min, dyn_stiff_max), (s_0_min, s_0_max), (m_0_min, m_0_max)).

(** C2, as the code has it.  [synthesis] compares no lengths itself.  What
    an empty [c] or an empty [q] does is left to the NumPy release: up to
    NumPy 2.2 the infinity norm of the normalisation raises its
    ValueError, without the minimizer ever being called; from NumPy 2.3 on
    that norm is 0.0, nothing is raised there and the stage-A minimizer is
    called.  With non-empty [c]
    and [q] of different lengths, neither of them 1, it reconstructs the
    baseline moment and calls the stage-A minimizer; the objective then
    raises at every point, so a solver that evaluates it at all fails
    with that error.  With non-empty [c] and [q] one of which has length
    1, the stage-A minimizer is called as well, and the objective
    evaluates at every point: NumPy stretches the single item. *)
Theorem shape_errors_as_raised :
  (np_release = numpy_upto_2_2 -> c = [] \/ q = [] ->
   prog = Throw (ValueError
     "zero-size array to reduction operation maximum which has no identity")) /\
  (np_release = numpy_from_2_3 -> c = [] \/ q = [] ->
   exists callA,
     first_call prog = Some callA /\
     length (call_m_ callA) = length q) /\
  (c <> [] -> q <> [] -> length c = 1 \/ length q = 1 ->
   exists callA,
     first_call prog = Some callA /\
     forall x, exists v, objective callA x = Ok v) /\
  (c <> [] -> q <> [] ->
   length c <> length q -> length c <> 1 -> length q <> 1 ->
   exists callA,
     first_call prog = Some callA /\
     length (call_m_ callA) = length q /\
     (forall x, objective callA x =
        Raise (ValueError "operands could not be broadcast together")) /\
     (forall solver x k,
        solver "SLSQP"%string (g_dyn_stiff, g_s_0, g_m_0) (Some bounds) = Ask x k ->
        run solver prog =
        Raise (ValueError "operands could not be broadcast together"))).
Proof.
  split; [|split; [|split]].
  - intros E H. apply synthesis_throws. now apply baseline_empty.
  - intros E _.
    destruct (baseline_always c q E) as (m_ & Hb & Hlen).
    eexists; split; [apply synthesis_stage_A; exact Hb|exact Hlen].
  - intros Hc Hq H1.
    destruct (baseline_ok Hc Hq) as (m_ & Hb & Hlen).
    eexists; split; [apply synthesis_stage_A; exact Hb|].
    intros x; unfold objective; cbn [mc_args mc_fun].
    apply fun_stretch; rewrite Hlen; exact H1.
  - intros Hc Hq Hne H1 H2.
    destruct (baseline_ok Hc Hq) as (m_ & Hb & Hlen).
    assert (Hobj : forall x, fun_ x c m_ (OrdInt 2) =
              Raise (ValueError "operands could not be broadcast together"))
      by (intros x; apply fun_shape_mismatch; rewrite ?Hlen; assumption).
    eexists; split; [apply synthesis_stage_A; exact Hb|].
    split; [exact Hlen|]. split; [exact Hobj|].
    intros solver x k Hs. unfold prog.
    rewrite synthesis_run with (m_ := m_) by exact Hb.
    unfold answer at 1; cbn [mc_method mc_x0 mc_bounds].
    match goal with
    | |- context [run_strategy ?o ?s] =>
        change s with
          (solver "SLSQP"%string (g_dyn_stiff, g_s_0, g_m_0) (Some bounds))
    end.
    rewrite Hs; cbn [run_strategy].
    unfold objective; cbn [mc_args mc_fun]. now rewrite Hobj.
Qed.

(** C4, as the code has it.  [synthesis] checks neither the intervals nor
    the guesses.  For non-empty [c] and [q], whatever the bounds and the
    guesses are, its first action after the baseline moment is the stage-A
    call of the minimizer, which gets the three guesses as [x0] and the
    three intervals as [bounds], unchanged.  Rejecting them is left to
    the minimizer. *)
Theorem bounds_and_guesses_go_to_the_minimizer_unchecked :
  c <> [] -> q <> [] ->
  exists callA,
    first_call prog = Some callA /\
    mc_x0 callA = (g_dyn_stiff, g_s_0, g_m_0) /\
    mc_bounds callA = Some bounds /\
    baseline c q = Ok (call_m_ callA).
Proof.
  intros Hc Hq. destruct (baseline_ok Hc Hq) as (m_ & Hb & _).
  eexists; split; [apply synthesis_stage_A; exact Hb|].
  repeat split; exact Hb.
Qed.

(** C3, as the code has it.  For non-empty [c] and [q], whatever the two
    minimizer calls answer, converged or not, [synthesis] raises nothing
    and returns [(c_h, m_, m, res_x_dict)], where the dictionary holds the
    three items of the final [res.x] and nothing else.  The returned value
    is a function of that [res.x] alone: two final answers with the same
    [x] and different convergence flags give the same value. *)
Theorem result_is_built_from_final_x_alone :
  c <> [] -> q <> [] ->
  forall rA rB,
    (exists c_h m_ m,
       after (after prog rA) rB =
       Ret (c_h, m_, m, [("dyn_stiff", fst (fst (res_x rB)));
                         ("s_0", snd (fst (res_x rB)));
                         ("m_0", snd (res_x rB))]%string)) /\
    (forall rB', res_x rB' = res_x rB ->
       after (after prog rA) rB' = after (after prog rA) rB).
Proof.
  intros Hc Hq rA rB. destruct (baseline_ok Hc Hq) as (m_ & Hb & _).
  split.
  - unfold prog; rewrite synthesis_finish with (m_ := m_) by exact Hb.
    unfold finish; destruct (res_x rB) as [[k s] m0]; simpl; eauto.
  - intros rB' E. unfold prog.
    rewrite !synthesis_finish with (m_ := m_) by exact Hb. now rewrite E.
Qed.

End Validation.

(** ** Runs over the reals *)

Module ExactRuns.

Import Exact Scenarios Today.
Local Open Scope R_scope.

(** Evaluate [Rabs] and [Rmax] on numerals, then compare. *)
Ltac r_eval :=
  repeat match goal with
         | |- context [Rabs ?x] =>
             first [ rewrite (Rabs_pos_eq x) by lra
                   | rewrite (Rabs_left x) by lra ]
         end;
  repeat match goal with
         | |- context [Rmax ?a ?b] =>
             first [ rewrite (Rmax_right a b) by lra
                   | rewrite (Rmax_left a b) by lra ]
         | |- context [Rmin ?a ?b] =>
             first [ rewrite (Rmin_left a b) by lra
                   | rewrite (Rmin_right a b) by lra ]
         end;
  try lra; try (field_simplify; lra).

(** Compare results item by item. *)
Ltac items :=
  repeat match goal with
         | |- Ok _ = Ok _ => f_equal
         | |- (_, _) = (_, _) => f_equal
         | |- _ :: _ = _ :: _ => f_equal
         end.

Example baseline_mid :
  baseline c_mid q_mid = Ok [0; 0; 2 / 3; 4 / 3; 2].
Proof. unfold c_mid, q_mid; cbn. items; r_eval. Qed.

(** C2 fails as stated: [c] has length 1 and [q] length 3, and [synthesis]
    raises nothing; with a solver that stops at its starting point it
    returns three sequences of length 3. *)
Lemma unequal_lengths_not_rejected :
  length [1] <> length [1; 2; 3] /\
  (exists callA, first_call prog_c1_q3 = Some callA /\
                 objective callA (1, 0, 0) = Ok (sqrt (9 / 10 * (9 / 10) + 3 / 5 * (3 / 5) + 0 * 0))) /\
  run (stop_at_start true) prog_c1_q3 =
  Ok ([1 / 10; 2 / 5; 1], [1 / 10; 2 / 5; 1], [1 / 10; 2 / 5; 1],
      [("dyn_stiff"%string, 1); ("s_0"%string, 0); ("m_0"%string, 0)]).
Proof.
  split; [simpl; lia|]. split.
  - eexists; split; [reflexivity|].
    cbn. do 2 f_equal. r_eval.
  - cbn. items; r_eval.
Qed.

(** C4 fails as stated: the guess 5 lies outside its interval [0, 1], and
    [synthesis] raises nothing: it calls the minimizer with [x0 = (5, 0, 0)]
    and those bounds; a solver that clips its starting point into the box,
    as SLSQP does, and stops there makes the call return. *)
Lemma guess_outside_bounds_not_rejected :
  (1 < 5) /\
  (exists callA, first_call prog_guess_out = Some callA /\
     mc_x0 callA = (5, 0, 0) /\
     mc_bounds callA = Some ((Fin 0, Fin 1), (NegInf, PosInf), (NegInf, PosInf))) /\
  run (stop_at_start true) prog_guess_out =
  Ok ([1; 2; 3], [1; 2; 3], [1; 2; 3],
      [("dyn_stiff"%string, 1); ("s_0"%string, 0); ("m_0"%string, 0)]).
Proof.
  split; [lra|]. split.
  - eexists; split; [reflexivity|]. split; reflexivity.
  - cbn. items; r_eval.
Qed.

(** C3 fails as stated: a final answer that reports convergence and one
    that reports failure after 100 iterations, at the same point, make
    [synthesis] return the same value; nothing in it tells them apart. *)
Lemma convergence_flag_not_returned :
  exists out,
    res_success (converged (1, 0, 0)) = true /\
    res_success (not_converged (1, 0, 0)) = false /\
    after (after prog_mid (converged (1, 0, 0))) (converged (1, 0, 0))
      = Ret out /\
    after (after prog_mid (converged (1, 0, 0))) (not_converged (1, 0, 0))
      = Ret out.
Proof.
  eexists. split; [reflexivity|]. split; [reflexivity|].
  split; reflexivity.
Qed.

End ExactRuns.

(** ** Exact arithmetic: cumulative sums, norms, residuals *)

Module ExactFacts.

Import Exact SpecWords.
Local Open Scope R_scope.

Section Release.

Context {numpy : NumPy}.

Lemma accumulate_prefix (l : list R) (acc : R) :
  accumulate acc l =
  map (fun i => acc + sum_list (firstn (S i) l)) (seq 0 (length l)).
Proof.
  revert acc; induction l as [|a l IH]; intros acc; [reflexivity|].
  cbn [accumulate length seq map]. rewrite IH, <- seq_shift, map_map.
  f_equal; [simpl; lra|].
  apply map_ext; intros i; simpl; lra.
Qed.

Lemma np_cumsum_prefix_sum (l : list R) : np_cumsum l = prefix_sum l.
Proof.
  destruct l as [|a l]; [reflexivity|].
  unfold prefix_sum; cbn [np_cumsum length seq map].
  rewrite accumulate_prefix, <- seq_shift, map_map.
  f_equal; simpl; lra.
Qed.

Lemma prefix_sum_length (l : list R) : length (prefix_sum l) = length l.
Proof. unfold prefix_sum; now rewrite length_map, length_seq. Qed.

Lemma fold_Rmax_spec (l : list R) (a : R) :
  (fold_left Rmax l a = a \/ In (fold_left Rmax l a) l) /\
  a <= fold_left Rmax l a /\
  forall x, In x l -> x <= fold_left Rmax l a.
Proof.
  revert a; induction l as [|b l IH]; intros a; simpl.
  - split; [now left|]. split; [lra|]. intros x [].
  - destruct (IH (Rmax a b)) as (Hin & Hle & Hall).
    pose proof (Rmax_l a b). pose proof (Rmax_r a b).
    split; [|split].
    + destruct Hin as [E|Hin]; [|now right; right].
      rewrite E. unfold Rmax; destruct (Rle_dec a b); [right; now left|now left].
    + lra.
    + intros x [<-|Hx]; [lra|now apply Hall].
Qed.

(** On a non-empty array both releases give the same infinity norm: the
    maximum from 0 of absolute values is their maximum. *)
Lemma norm_inf_cons (a : R) (l : list R) :
  np_linalg_norm (a :: l) OrdInf = Ok (fold_left Rmax (map Rabs l) (Rabs a)).
Proof.
  cbn [np_linalg_norm np_release Scalar_R]. destruct numpy; [reflexivity|].
  cbn [map np_max_initial fold_left f_abs f_max f_of_Z Scalar_R].
  now rewrite (Rmax_right 0 (Rabs a)) by apply Rabs_pos.
Qed.

Lemma norm_inf_max_abs (l : list R) :
  l <> [] -> exists v, np_linalg_norm l OrdInf = Ok v /\ max_abs l v.
Proof.
  destruct l as [|a l]; [congruence|intros _].
  rewrite norm_inf_cons. eexists; split; [reflexivity|].
  destruct (fold_Rmax_spec (map Rabs l) (Rabs a)) as (Hin & Hle & Hall).
  split.
  - destruct Hin as [E|Hin].
    + exists a; split; [now left|symmetry; exact E].
    + apply in_map_iff in Hin as (x & Hx & Hxl).
      exists x; split; [now right|exact Hx].
  - intros x [<-|Hx]; [exact Hle|].
    apply Hall, in_map_iff; eauto.
Qed.

Lemma scale_by_ratio (l : list R) (nc nm : R) :
  arr_div_s (arr_mul_s l nc) nm = map (fun v => v * (nc / nm)) l.
Proof.
  unfold arr_div_s, arr_mul_s; rewrite map_map.
  apply map_ext; intros v; cbn [f_mul f_div Scalar_R]; unfold Rdiv; ring.
Qed.

Section Baseline.

Variables (c q : list R) (g_dyn_stiff g_s_0 g_m_0 : R) (norm : Ord).
Variables (dyn_stiff_min dyn_stiff_max s_0_min s_0_max m_0_min m_0_max : bound R).

Let prog : Prog R (Output R) :=
  synthesis c q g_dyn_stiff g_s_0 g_m_0 norm
            dyn_stiff_min dyn_stiff_max s_0_min s_0_max m_0_min m_0_max.

(** C6.  For [c] and [q] of one length [n >= 1], in exact arithmetic: the
    baseline moment that [synthesis] hands to the objective in stage A and
    in stage B, and returns, is the double prefix sum of [q] with every
    item multiplied by [scale = nc / nm], where [nc] is the maximum
    absolute value of [c] and [nm] that of the double prefix sum. *)
Theorem baseline_is_scaled_double_prefix_sum (n : nat) :
  length c = n -> length q = n -> (1 <= n)%nat ->
  exists nc nm,
    max_abs c nc /\
    max_abs (prefix_sum (prefix_sum q)) nm /\
    let scale := nc / nm in
    let m_ := map (fun v => v * scale) (prefix_sum (prefix_sum q)) in
    (exists callA, first_call prog = Some callA /\ call_m_ callA = m_) /\
    (forall rA, exists callB,
        first_call (after prog rA) = Some callB /\ call_m_ callB = m_) /\
    (forall rA rB, exists c_h m d,
        after (after prog rA) rB = Ret (c_h, m_, m, d)).
Proof.
  intros Hc Hq Hn.
  assert (Hc' : c <> []) by (intros ->; simpl in Hc; lia).
  assert (Hq' : q <> []) by (intros ->; simpl in Hq; lia).
  assert (Hpp : prefix_sum (prefix_sum q) <> []).
  { intros E; apply (f_equal (@length R)) in E.
    rewrite !prefix_sum_length in E; simpl in E; lia. }
  destruct (norm_inf_max_abs Hc') as (nc & Enc & Hnc).
  destruct (norm_inf_max_abs Hpp) as (nm & Enm & Hnm).
  exists nc, nm. split; [exact Hnc|]. split; [exact Hnm|].
  intros scale m_.
  assert (Hb : baseline c q = Ok m_).
  { unfold baseline. rewrite !np_cumsum_prefix_sum, Enc, Enm.
    cbn [rbind]. now rewrite scale_by_ratio. }
  split; [|split].
  - eexists; split; [apply synthesis_stage_A; exact Hb|reflexivity].
  - intros rA; eexists; split; [apply synthesis_stage_B; exact Hb|reflexivity].
  - intros rA rB. unfold prog.
    rewrite synthesis_finish with (m_ := m_) by exact Hb.
    unfold finish; destruct (res_x rB) as [[k s] m0]; eauto.
Qed.

End Baseline.

End Release.

End ExactFacts.

(** ** Exact arithmetic: the loss is the norm of the residual *)

Module ExactLoss.

Import Exact SpecWords.
Local Open Scope R_scope.

Section Release.

Context {numpy : NumPy}.

Lemma nth_map_lt {A B} (f : A -> B) (l : list A) (i : nat) (d : A) (d' : B) :
  (i < length l)%nat -> nth i (map f l) d' = f (nth i l d).
Proof.
  intros H. rewrite nth_indep with (d' := f d) by now rewrite length_map.
  apply map_nth.
Qed.

Lemma nth_zip_with (op : R -> R -> R) (a b : list R) (i : nat) (d : R) :
  (i < length a)%nat -> (i < length b)%nat ->
  nth i (zip_with op a b) d = op (nth i a d) (nth i b d).
Proof.
  revert b i; induction a as [|x a IH]; intros [|y b] i Ha Hb; simpl in *;
    try lia.
  destruct i as [|i]; [reflexivity|]. apply IH; lia.
Qed.

Lemma residuals_computed (x : Params R) (c m_ : list R) :
  length c = length m_ ->
  let '(dyn_stiff, s_0, m_0) := x in
  zip_with f_sub c
    (arr_div_s (zip_with f_add (arr_add_s m_ m_0)
                         (iarr_mul_s (np_arange (length m_)) s_0)) dyn_stiff)
  = residuals x c m_.
Proof.
  destruct x as [[k s] m0]; intros E.
  assert (Hlen : length (zip_with f_add (arr_add_s m_ m0)
                   (iarr_mul_s (np_arange (length m_)) s)) = length m_)
    by apply moment_length.
  apply nth_ext with (d := 0) (d' := 0).
  - unfold residuals. rewrite length_map, length_seq, zip_with_length;
      [reflexivity|]. unfold arr_div_s; now rewrite length_map, Hlen.
  - intros i Hi.
    rewrite zip_with_length in Hi
      by (unfold arr_div_s; now rewrite length_map, Hlen).
    unfold residuals.
    rewrite nth_map_lt with (d := 0%nat) by now rewrite length_seq.
    rewrite seq_nth by exact Hi. cbn [Nat.add].
    rewrite nth_zip_with;
      [|exact Hi|unfold arr_div_s; rewrite length_map, Hlen; lia].
    unfold arr_div_s at 1.
    rewrite nth_map_lt with (d := 0) by (rewrite Hlen; lia).
    rewrite nth_zip_with;
      [|unfold arr_add_s; rewrite length_map; lia
       |unfold iarr_mul_s; rewrite length_map, np_arange_length; lia].
    unfold arr_add_s, iarr_mul_s, np_arange.
    rewrite nth_map_lt with (d := 0) by lia.
    rewrite nth_map_lt with (d := 0%Z)
      by (rewrite length_map, length_seq; lia).
    rewrite nth_map_lt with (d := 0%nat) by (rewrite length_seq; lia).
    rewrite seq_nth by lia. cbn [Nat.add].
    unfold residual; cbn [f_sub f_add f_mul f_div f_of_Z Scalar_R].
    now rewrite <- INR_IZR_INZ.
Qed.

Lemma fun_residuals (x : Params R) (c m_ : list R) (p : Ord) :
  length c = length m_ ->
  fun_ x c m_ p = np_linalg_norm (residuals x c m_) p.
Proof.
  intros E. pose proof (@residuals_computed x c m_ E) as H.
  unfold fun_; destruct x as [[k s] m0].
  rewrite broadcast_equal
    by (unfold arr_div_s; now rewrite length_map, moment_length).
  cbn [rbind]. rewrite H. now destruct (np_linalg_norm _ p).
Qed.

Lemma fold_left_Rplus (l : list R) (a : R) :
  fold_left Rplus l a = a + sum_list l.
Proof.
  revert a; induction l as [|b l IH]; intros a; simpl; [lra|].
  rewrite IH; lra.
Qed.

Lemma np_sum_sum_list (l : list R) : np_sum l = sum_list l.
Proof.
  destruct l as [|a l]; [reflexivity|].
  cbn [np_sum]. apply fold_left_Rplus.
Qed.

Lemma sum_list_nonneg (l : list R) :
  (forall v, In v l -> 0 <= v) -> 0 <= sum_list l.
Proof.
  induction l as [|a l IH]; intros H; simpl; [lra|].
  assert (0 <= a) by (apply H; now left).
  assert (0 <= sum_list l) by (apply IH; intros v Hv; apply H; now right).
  lra.
Qed.

Lemma sum_abs_pow_nonneg (k : nat) (e : list R) : 0 <= sum_abs_pow k e.
Proof.
  apply sum_list_nonneg; intros v Hv.
  apply in_map_iff in Hv as (w & <- & _). apply pow_le, Rabs_pos.
Qed.

Lemma Rpow_nat (x : R) (k : nat) :
  0 <= x -> (1 <= k)%nat -> Rpow x (INR k) = x ^ k.
Proof.
  intros Hx Hk; unfold Rpow.
  destruct (Req_dec_T x 0) as [->|Hne].
  - destruct (Req_dec_T (INR k) 0) as [E|_].
    + change 0 with (INR 0) in E; apply INR_eq in E; lia.
    + symmetry; apply pow_i; lia.
  - apply Rpower_pow; lra.
Qed.

Lemma Rpow_root (s : R) (k : nat) :
  0 <= s -> (1 <= k)%nat ->
  0 <= Rpow s (1 / INR k) /\ Rpow s (1 / INR k) ^ k = s.
Proof.
  intros Hs Hk.
  assert (Hk' : 0 < INR k) by (apply lt_0_INR; lia).
  assert (Hy : 1 / INR k <> 0).
  { apply Rgt_not_eq. unfold Rdiv; rewrite Rmult_1_l.
    now apply Rinv_0_lt_compat. }
  unfold Rpow. destruct (Req_dec_T s 0) as [->|Hne].
  - destruct (Req_dec_T (1 / INR k) 0) as [E|_]; [contradiction|].
    split; [lra|]. apply pow_i; lia.
  - assert (Hpos : 0 < Rpower s (1 / INR k)) by apply exp_pos.
    split; [lra|].
    rewrite <- Rpower_pow by exact Hpos.
    rewrite Rpower_mult.
    replace (1 / INR k * INR k) with 1 by (field; lra).
    apply Rpower_1; lra.
Qed.

(** The norm of an integer order [p >= 1], characterised. *)
Lemma p_norm_spec (e : list R) (p : Z) :
  (1 <= p)%Z ->
  exists v, np_linalg_norm e (OrdInt p) = Ok v /\ 0 <= v /\
            v ^ Z.to_nat p = sum_abs_pow (Z.to_nat p) e.
Proof.
  intros Hp. cbn [np_linalg_norm].
  destruct (Z.eqb_spec p 2) as [->|H2].
  { eexists; split; [reflexivity|]. cbn [f_sqrt f_mul Scalar_R].
    rewrite np_sum_sum_list.
    assert (Hs : 0 <= sum_list (map (fun v => v * v) e)).
    { apply sum_list_nonneg; intros v Hv.
      apply in_map_iff in Hv as (w & <- & _). apply Rle_0_sqr. }
    split; [apply sqrt_pos|].
    change (Z.to_nat 2) with 2%nat. cbn [pow].
    rewrite Rmult_1_r, sqrt_sqrt by exact Hs.
    unfold sum_abs_pow; f_equal. apply map_ext; intros v.
    cbn [pow]. rewrite Rmult_1_r. exact (Rsqr_abs v). }
  destruct (Z.eqb_spec p 0) as [->|H0]; [lia|].
  destruct (Z.eqb_spec p 1) as [->|H1].
  { eexists; split; [reflexivity|]. cbn [f_abs Scalar_R].
    rewrite np_sum_sum_list. change (Z.to_nat 1) with 1%nat.
    assert (Hs : sum_abs_pow 1 e = sum_list (map Rabs e)).
    { unfold sum_abs_pow; f_equal. apply map_ext; intros v; simpl; lra. }
    split; [rewrite <- Hs; apply sum_abs_pow_nonneg|].
    rewrite Hs; simpl; lra. }
  eexists; split; [reflexivity|].
  cbn [f_pow f_abs f_div f_of_Z Scalar_R]. rewrite np_sum_sum_list.
  assert (Hk : (1 <= Z.to_nat p)%nat) by lia.
  assert (Ep : IZR p = INR (Z.to_nat p))
    by (rewrite INR_IZR_INZ, Z2Nat.id by lia; reflexivity).
  rewrite Ep.
  assert (Hs : map (fun v => Rpow (Rabs v) (INR (Z.to_nat p))) e
               = map (fun v => Rabs v ^ Z.to_nat p) e)
    by (apply map_ext; intros v; apply Rpow_nat; [apply Rabs_pos|exact Hk]).
  rewrite Hs. fold (sum_abs_pow (Z.to_nat p) e).
  apply Rpow_root; [apply sum_abs_pow_nonneg|exact Hk].
Qed.

(** C5.  In exact arithmetic, for [c] and [m_] of one length [n]: [fun]
    returns the norm, of the order asked for, of the residual sequence
    [e[i] = c[i] - (m_[i] + initial_moment + i * initial_shear) /
    dynamic_stiffness], [i = 0 .. n-1].  For an integer order [p >= 1] the
    value [v] returned is the [p]-norm [(sum |e[i]|^p)^(1/p)]: it is not
    negative and [v^p = sum |e[i]|^p].  For the infinity order and
    [n >= 1] it is the maximum of the [|e[i]|]. *)
Theorem fun_is_norm_of_residual
    (x : Params R) (c m_ : list R) (norm : Ord) (n : nat) :
  length c = n -> length m_ = n ->
  fun_ x c m_ norm = np_linalg_norm (residuals x c m_) norm /\
  length (residuals x c m_) = n /\
  (forall p, norm = OrdInt p -> (1 <= p)%Z ->
     exists v, fun_ x c m_ norm = Ok v /\ 0 <= v /\
               v ^ Z.to_nat p = sum_abs_pow (Z.to_nat p) (residuals x c m_)) /\
  (norm = OrdInf -> (1 <= n)%nat ->
     exists v, fun_ x c m_ norm = Ok v /\ max_abs (residuals x c m_) v).
Proof.
  intros Hc Hm.
  assert (E : length c = length m_) by congruence.
  assert (Hlen : length (residuals x c m_) = n)
    by (unfold residuals; now rewrite length_map, length_seq).
  split; [now apply fun_residuals|]. split; [exact Hlen|].
  rewrite (@fun_residuals x c m_ norm E).
  split.
  - intros p -> Hp. now apply p_norm_spec.
  - intros -> Hn.
    apply ExactFacts.norm_inf_max_abs.
    intros E0; rewrite E0 in Hlen; simpl in Hlen; lia.
Qed.

End Release.

End ExactLoss.

Module ExactBounds.

Import Exact SpecWords Scenarios ExactRuns.
Local Open Scope R_scope.

Section Release.

Context {numpy : NumPy}.

Example baseline_ramp : baseline c_ramp q_mid = Ok [0; 0; 1; 2; 3].
Proof. unfold c_ramp, q_mid; destruct numpy; cbn; items; r_eval. Qed.

Lemma loss_ramp (x : Params R) :
  fun_ x c_ramp [0; 0; 1; 2; 3] (OrdInt 1) =
  Ok (Rabs (0 - (0 + snd x + 0 * snd (fst x)) / fst (fst x)) +
      Rabs (0 - (0 + snd x + 1 * snd (fst x)) / fst (fst x)) +
      Rabs (1 - (1 + snd x + 2 * snd (fst x)) / fst (fst x)) +
      Rabs (2 - (2 + snd x + 3 * snd (fst x)) / fst (fst x)) +
      Rabs (3 - (3 + snd x + 4 * snd (fst x)) / fst (fst x))).
Proof. destruct x as [[k s] m0]; reflexivity. Qed.

Lemma loss_ramp_zero_only_at_1 (x : Params R) (v : R) :
  fun_ x c_ramp [0; 0; 1; 2; 3] (OrdInt 1) = Ok v ->
  0 <= v /\ (v = 0 -> x = (1, 0, 0)).
Proof.
  rewrite loss_ramp; destruct x as [[k s] m0]; cbn [fst snd].
  intros H; injection H as <-.
  set (e0 := 0 - (0 + m0 + 0 * s) / k).
  set (e1 := 0 - (0 + m0 + 1 * s) / k).
  set (e2 := 1 - (1 + m0 + 2 * s) / k).
  set (e3 := 2 - (2 + m0 + 3 * s) / k).
  set (e4 := 3 - (3 + m0 + 4 * s) / k).
  pose proof (Rabs_pos e0). pose proof (Rabs_pos e1). pose proof (Rabs_pos e2).
  pose proof (Rabs_pos e3). pose proof (Rabs_pos e4).
  split; [lra|]. intros Hz.
  assert (Z0 : e0 = 0) by (destruct (Req_dec e0 0) as [E|E]; [exact E|apply Rabs_pos_lt in E; lra]).
  assert (Z1 : e1 = 0) by (destruct (Req_dec e1 0) as [E|E]; [exact E|apply Rabs_pos_lt in E; lra]).
  assert (Z2 : e2 = 0) by (destruct (Req_dec e2 0) as [E|E]; [exact E|apply Rabs_pos_lt in E; lra]).
  unfold e0, e1, e2 in *. clear - Z0 Z1 Z2.
  destruct (Req_dec k 0) as [->|Hk].
  - unfold Rdiv in Z2. rewrite Rinv_0 in Z2. lra.
  - assert (Em0 : m0 = 0).
    { apply (f_equal (fun t => t * k)) in Z0. field_simplify in Z0; lra. }
    subst m0.
    assert (Es : s = 0).
    { apply (f_equal (fun t => t * k)) in Z1. field_simplify in Z1; lra. }
    subst s.
    assert (Ek : k = 1).
    { apply (f_equal (fun t => t * k)) in Z2. field_simplify in Z2; lra. }
    now subst k.
Qed.

(** C1 fails on the code.  The caller asks for a stiffness in [2, 3] and
    starts at 2.  Stage A is called with these bounds; stage B, whatever
    stage A answered, is called with no bounds at all.  Its loss is zero
    at [(1, 0, 0)] and nowhere else, so a solver that finds the minimum of
    what it is given returns the stiffness 1, outside the interval. *)
Theorem stage_B_leaves_the_box :
  (exists callA,
     first_call prog_box = Some callA /\
     mc_bounds callA =
       Some ((Fin 2, Fin 3), (NegInf, PosInf), (NegInf, PosInf))) /\
  (forall rA, exists callB,
     first_call (after prog_box rA) = Some callB /\
     mc_bounds callB = None /\
     objective callB (1, 0, 0) = Ok 0 /\
     forall x v, objective callB x = Ok v -> 0 <= v /\ (v = 0 -> x = (1, 0, 0))) /\
  run (oracle (1, 0, 0)) prog_box =
    Ok ([0; 0; 1; 2; 3], [0; 0; 1; 2; 3], [0; 0; 1; 2; 3],
        [("dyn_stiff"%string, 1); ("s_0"%string, 0); ("m_0"%string, 0)]) /\
  ~ within Rle (Fin 2, Fin 3) 1.
Proof.
  pose proof baseline_ramp as Hb.
  split; [|split; [|split]].
  - eexists; split; [apply synthesis_stage_A; exact Hb|reflexivity].
  - intros rA; eexists; split; [apply synthesis_stage_B; exact Hb|].
    split; [reflexivity|].
    unfold objective; cbn [mc_args mc_fun]. split.
    + rewrite loss_ramp; cbn [fst snd]. f_equal. r_eval.
    + apply loss_ramp_zero_only_at_1.
  - unfold prog_box. rewrite synthesis_run with (m_ := [0; 0; 1; 2; 3]) by exact Hb.
    cbn. items; r_eval.
  - unfold within; cbn [fst snd]. lra.
Qed.

End Release.

End ExactBounds.

(** ** IEEE arithmetic: a zero stiffness *)

Module ZeroStiffness.

Import Binary64.

Lemma div_by_zero (x z : float64) :
  is_zero z = true -> not_finite (SFdiv prec emax x z) = true.
Proof. destruct x, z; simpl; intros H; try discriminate; reflexivity. Qed.

Lemma sub_not_finite (x y : float64) :
  not_finite y = true -> not_finite (SFsub prec emax x y) = true.
Proof.
  destruct x as [s|s| |s m e], y as [t|t| |t m' e']; simpl; intros H;
    try discriminate; try reflexivity;
    destruct s, t; reflexivity.
Qed.

Lemma abs_not_finite (x : float64) :
  not_finite x = true -> inf_or_nan (SFabs x) = true.
Proof. destruct x; simpl; intros H; try discriminate; reflexivity. Qed.

Lemma square_not_finite (x : float64) :
  not_finite x = true -> inf_or_nan (SFmul prec emax x x) = true.
Proof.
  destruct x as [s|s| |s m e]; simpl; intros H; try discriminate;
    try reflexivity; now destruct s.
Qed.

Lemma add_inf_or_nan (x y : float64) :
  inf_or_nan x = true -> inf_or_nan y = true ->
  inf_or_nan (SFadd prec emax x y) = true.
Proof.
  destruct x as [s|[|]| |s m e], y as [t|[|]| |t m' e']; simpl; intros H1 H2;
    try discriminate; reflexivity.
Qed.

Lemma sqrt_inf_or_nan (x : float64) :
  inf_or_nan x = true -> inf_or_nan (SFsqrt prec emax x) = true.
Proof.
  destruct x as [s|[|]| |s m e]; simpl; intros H; try discriminate; reflexivity.
Qed.

Lemma fmax_inf_or_nan (x y : float64) :
  inf_or_nan x = true -> inf_or_nan y = true -> inf_or_nan (fmax x y) = true.
Proof.
  destruct x as [s|[|]| |s m e], y as [t|[|]| |t m' e']; simpl; intros H1 H2;
    try discriminate; reflexivity.
Qed.

Lemma fold_left_closed (P : float64 -> bool) (op : float64 -> float64 -> float64) :
  (forall x y, P x = true -> P y = true -> P (op x y) = true) ->
  forall l a, P a = true -> Forall (fun v => P v = true) l ->
              P (fold_left op l a) = true.
Proof.
  intros Hop l; induction l as [|b l IH]; intros a Ha Hl; simpl; [exact Ha|].
  inversion Hl; subst. apply IH; [now apply Hop|assumption].
Qed.

Lemma Forall_map_pred (P Q : float64 -> bool) (f : float64 -> float64) (l : list float64) :
  (forall v, P v = true -> Q (f v) = true) ->
  Forall (fun v => P v = true) l -> Forall (fun v => Q v = true) (map f l).
Proof.
  intros Hf H; induction H; simpl; constructor; auto.
Qed.

Lemma fmax_zero_abs (x : float64) : fmax (of_Z 0) (SFabs x) = SFabs x.
Proof. destruct x as [s|s| |s m e]; reflexivity. Qed.

Section Libm.

Variable pow : float64 -> float64 -> float64.

Hypothesis pow_inf : forall y, positive y = true -> pow pinf y = pinf.
Hypothesis pow_nan : forall y, positive y = true -> pow nan y = nan.

Context {numpy : NumPy}.

Let SF64 : Scalar float64 := Scalar_float64 pow.

(** On a non-empty array both releases give the same infinity norm. *)
Lemma norm_inf_cons_binary64 (a : float64) (l : list float64) :
  @np_linalg_norm _ SF64 (a :: l) OrdInf
  = Ok (fold_left fmax (map SFabs l) (SFabs a)).
Proof.
  cbn [np_linalg_norm np_release SF64 Scalar_float64].
  destruct numpy; [reflexivity|].
  cbn [map np_max_initial fold_left f_abs f_max f_of_Z Scalar_float64].
  f_equal. f_equal. apply fmax_zero_abs.
Qed.

Lemma pow_inf_or_nan (x y : float64) :
  positive y = true -> inf_or_nan x = true -> inf_or_nan (pow x y) = true.
Proof.
  intros Hy; destruct x as [s|[|]| |s m e]; simpl; intros H; try discriminate.
  - change (S754_infinity false) with pinf; now rewrite pow_inf.
  - change S754_nan with nan; now rewrite pow_nan.
Qed.

(** The residual for a zero stiffness: nothing in it is finite. *)
Lemma error_not_finite (c M : list float64) (k : float64) :
  is_zero k = true ->
  Forall (fun v => not_finite v = true)
         (@zip_with float64 (@f_sub _ SF64) c (@arr_div_s _ SF64 M k)).
Proof.
  intros Hk; revert M; induction c as [|x c IH]; intros [|y M]; simpl;
    try constructor.
  - apply sub_not_finite, div_by_zero, Hk.
  - apply IH.
Qed.

Lemma sum_inf_or_nan (l : list float64) :
  l <> [] -> Forall (fun v => inf_or_nan v = true) l ->
  inf_or_nan (@np_sum _ SF64 l) = true.
Proof.
  destruct l as [|a l]; [congruence|intros _ H].
  inversion H; subst. cbn [np_sum].
  apply (fold_left_closed inf_or_nan); [apply add_inf_or_nan|assumption..].
Qed.

Lemma norm_not_finite (e : list float64) (norm : Ord) :
  e <> [] -> Forall (fun v => not_finite v = true) e ->
  allowed_order norm = true ->
  exists v, @np_linalg_norm _ SF64 e norm = Ok v /\ inf_or_nan v = true.
Proof.
  intros He Hall Hord.
  assert (Habs : Forall (fun v => inf_or_nan v = true) (map SFabs e))
    by (apply Forall_map_pred with (P := not_finite);
        [apply abs_not_finite|exact Hall]).
  assert (Hne : forall f : float64 -> float64, map f e <> [])
    by (intros f E; apply map_eq_nil in E; contradiction).
  destruct norm as [| |p]; [| discriminate |].
  - destruct e as [|a l]; [congruence|].
    rewrite norm_inf_cons_binary64. cbn [map] in Habs.
    inversion Habs; subst. eexists; split; [reflexivity|].
    apply (fold_left_closed inf_or_nan); [apply fmax_inf_or_nan|assumption..].
  - cbn [allowed_order] in Hord.
    apply andb_prop in Hord as [Hord Hrec]. apply andb_prop in Hord as [Hord Hpos].
    apply andb_prop in Hord as [Hp Hint].
    apply Z.leb_le in Hp. apply Z.ltb_lt in Hint.
    assert (Hfit : @f_order_fits _ SF64 p = true).
    { cbn [f_order_fits SF64 Scalar_float64].
      apply andb_true_intro; split; [apply Z.leb_le|apply Z.ltb_lt]; lia. }
    cbn [np_linalg_norm]. rewrite Hfit.
    destruct (Z.eqb_spec p 2) as [->|H2].
    { eexists; split; [reflexivity|].
      cbn [f_sqrt f_mul SF64 Scalar_float64].
      apply sqrt_inf_or_nan, sum_inf_or_nan; [apply Hne|].
      apply Forall_map_pred with (P := not_finite);
        [apply square_not_finite|exact Hall]. }
    destruct (Z.eqb_spec p 0) as [->|H0]; [lia|].
    destruct (Z.eqb_spec p 1) as [->|H1].
    { eexists; split; [reflexivity|].
      cbn [f_abs SF64 Scalar_float64].
      apply sum_inf_or_nan; [apply Hne|exact Habs]. }
    eexists; split; [reflexivity|].
    cbn [f_pow f_abs f_div f_of_Z SF64 Scalar_float64].
    apply pow_inf_or_nan; [exact Hrec|].
    apply sum_inf_or_nan; [apply Hne|].
    rewrite <- (map_map SFabs (fun v => pow v (of_Z p))).
    apply Forall_map_pred with (P := inf_or_nan); [|exact Habs].
    intros v Hv; now apply pow_inf_or_nan.
Qed.

(** C9.  In binary64 arithmetic, with a power function that follows C's
    [pow] on infinity and NaN: for a stiffness [+0.0] or [-0.0], [c] and
    [m_] of one length [n >= 1] and an allowed order, [fun] raises
    nothing; every residual is an infinity or NaN and the loss returned
    is [+inf] or NaN. *)
Theorem fun_at_zero_stiffness
    (x : Params float64) (c m_ : list float64) (norm : Ord) (n : nat) :
  is_zero (fst (fst x)) = true ->
  length c = n -> length m_ = n -> 1 <= n ->
  allowed_order norm = true ->
  exists v, @fun_ _ SF64 x c m_ norm = Ok v /\ (v = pinf \/ v = nan).
Proof.
  intros Hk Hc Hm Hn Hord. destruct x as [[k s] m0]; cbn [fst] in Hk.
  unfold fun_.
  set (M := zip_with (@f_add _ SF64) (@arr_add_s _ SF64 m_ m0)
                     (@iarr_mul_s _ SF64 (np_arange (length m_)) s)).
  assert (HM : length M = n) by (unfold M; now rewrite moment_length).
  rewrite broadcast_equal by (unfold arr_div_s; rewrite length_map; congruence).
  cbn [rbind].
  destruct (@norm_not_finite
              (zip_with (@f_sub _ SF64) c (@arr_div_s _ SF64 M k)) norm)
    as (v & Ev & Hv).
  - intros E; apply (f_equal (@length _)) in E.
    rewrite zip_with_length in E
      by (unfold arr_div_s; rewrite length_map; congruence).
    simpl in E; lia.
  - now apply error_not_finite.
  - exact Hord.
  - rewrite Ev; cbn [rbind]. exists v; split; [reflexivity|].
    destruct v as [t|[|]| |t m e]; try discriminate; auto.
Qed.

End Libm.

End ZeroStiffness.

(** ** Objects: what a call leaves of the store it found *)

Module Frame.

Import Store.

Section Growth.

Context {F : Type} {SF : Scalar F}.

Local Open Scope store_scope.

Lemma nth_error_new (h : Heap F) (a : ndarray F) :
  nth_error (h ++ [a]) (length h) = Some a.
Proof. rewrite nth_error_app2, Nat.sub_diag by lia; reflexivity. Qed.

Lemma update_new (h : Heap F) (a b : ndarray F) :
  update (h ++ [a]) (length h) b = h ++ [b].
Proof. induction h as [|x h IH]; simpl; [reflexivity|now rewrite IH]. Qed.

Lemma grows_preserves (h t : Heap F) : preserves h (h ++ t).
Proof.
  intros r a H. rewrite nth_error_app1; [exact H|].
  apply nth_error_Some; congruence.
Qed.

Lemma bind_cases {A B} (m : M F A) (k : A -> M F B) (h : Heap F) :
  (exists a h1, m h = (Ok a, h1) /\ bind m k h = k a h1) \/
  (exists e h1, m h = (Raise e, h1) /\ bind m k h = (Raise e, h1)).
Proof.
  unfold bind; destruct (m h) as [[a|e] h1]; [left|right]; eauto.
Qed.

Lemma grows_ret {A} (a : A) : grows (ret a : M F A).
Proof. intros h; exists []; simpl; now rewrite app_nil_r. Qed.

Lemma grows_raise {A} (e : exn) : grows (raise e : M F A).
Proof. intros h; exists []; simpl; now rewrite app_nil_r. Qed.

Lemma grows_of_result {A} (r : result A) : grows (of_result r : M F A).
Proof. intros h; exists []; simpl; now rewrite app_nil_r. Qed.

Lemma grows_bind {A B} (m : M F A) (k : A -> M F B) :
  grows m -> (forall a, grows (k a)) -> grows (bind m k).
Proof.
  intros Hm Hk h. destruct (Hm h) as [t1 E1].
  destruct (bind_cases m k h) as [(a & h1 & E & ->)|(e & h1 & E & ->)];
    rewrite E in E1; simpl in E1; subst h1.
  - destruct (Hk a (h ++ t1)) as [t2 E2]. exists (t1 ++ t2).
    now rewrite E2, app_assoc.
  - now exists t1.
Qed.

Lemma grows_alloc (a : ndarray F) : grows (alloc a).
Proof. intros h; now exists [a]. Qed.

Lemma grows_load (r : ref) : grows (load r : M F (ndarray F)).
Proof.
  intros h; exists []; unfold load.
  destruct (nth_error h r); simpl; now rewrite app_nil_r.
Qed.

Lemma grows_load_f (r : ref) : grows (load_f r).
Proof.
  apply grows_bind; [apply grows_load|intros a; apply grows_ret].
Qed.

Lemma grows_len (r : ref) : grows (len r).
Proof.
  apply grows_bind; [apply grows_load_f|intros a; apply grows_ret].
Qed.

Lemma grows_getitem (r : ref) (i : nat) : grows (getitem r i).
Proof.
  apply grows_bind; [apply grows_load_f|intros a].
  destruct (nth_error a i); [apply grows_ret|apply grows_raise].
Qed.

Lemma grows_load_then_alloc (r : ref) (f : list F -> ndarray F) :
  grows (a <- load_f r ;; alloc (f a)).
Proof.
  apply grows_bind; [apply grows_load_f|intros a; apply grows_alloc].
Qed.

Lemma grows_binop (op : F -> F -> F) (r1 r2 : ref) : grows (binop op r1 r2).
Proof.
  unfold binop.
  apply grows_bind; [apply grows_load_f|intros a].
  apply grows_bind; [apply grows_load_f|intros b].
  apply grows_bind; [apply grows_of_result|intros v; apply grows_alloc].
Qed.

(** The in-place power of [norm] writes the array [norm] has just made. *)
Lemma grows_power_in_place (x : list F) (p : Z) :
  grows (absx <- alloc (FloatArr (map f_abs x)) ;;
         a <- load_f absx ;;
         _ <- store absx (FloatArr (map (fun v => f_pow v (f_of_Z p)) a)) ;;
         a <- load_f absx ;;
         let ret_ := np_sum a in
         if f_order_fits p then ret (f_pow ret_ (f_div (f_of_Z 1) (f_of_Z p)))
         else raise CastError).
Proof.
  intros h. eexists.
  unfold bind, alloc, load_f, bind, load, store, ret, raise.
  rewrite nth_error_new. cbn [as_float].
  rewrite nth_error_new, update_new, nth_error_new.
  destruct (f_order_fits p); reflexivity.
Qed.

Lemma grows_norm (r : ref) (ord : Ord) : grows (np_linalg_norm_h r ord).
Proof.
  unfold np_linalg_norm_h.
  apply grows_bind; [apply grows_load_f|intros x].
  destruct ord as [| |p].
  - apply grows_bind; [apply grows_alloc|intros absx].
    apply grows_bind; [apply grows_load_f|intros a].
    destruct np_release; [apply grows_of_result|apply grows_ret].
  - apply grows_bind; [apply grows_alloc|intros absx].
    apply grows_bind; [apply grows_load_f|intros a; apply grows_of_result].
  - destruct (Z.eqb p 2); [apply grows_ret|].
    destruct (Z.eqb p 0).
    { apply grows_bind; [apply grows_alloc|intros nz].
      apply grows_bind; [apply grows_load_f|intros a; apply grows_ret]. }
    destruct (Z.eqb p 1).
    { apply grows_bind; [apply grows_alloc|intros nz].
      apply grows_bind; [apply grows_load_f|intros a; apply grows_ret]. }
    apply grows_power_in_place.
Qed.

Lemma grows_fun_h (x c m_ : ref) (norm : Ord) : grows (fun_h x c m_ norm).
Proof.
  unfold fun_h, np_arange_h, add_s, mul_s, div_s.
  repeat first
    [ apply grows_ret
    | apply grows_alloc
    | apply grows_getitem
    | apply grows_len
    | apply grows_binop
    | apply grows_norm
    | apply grows_load_then_alloc
    | apply grows_bind; [|intros ?] ].
Qed.

Lemma grows_run_strategy_h (obj : ref -> M F F) (s : Strategy F) :
  (forall xr, grows (obj xr)) -> grows (run_strategy_h obj s).
Proof.
  intros Hobj; induction s as [r|e|x k IH]; cbn [run_strategy_h].
  - destruct (res_x r) as [[a b] c].
    apply grows_bind; [apply grows_alloc|intros xr; apply grows_ret].
  - apply grows_raise.
  - destruct x as [[a b] c].
    apply grows_bind; [apply grows_alloc|intros xr].
    apply grows_bind; [apply Hobj|intros v; apply IH].
Qed.

Lemma grows_minimize_h (solver : Solver F) (x0 : ref) (method : string)
    (args : ref * ref * Ord) (bounds : option (Bounds F)) :
  grows (minimize_h solver fun_h x0 method args bounds).
Proof.
  unfold minimize_h. destruct args as [[c m_] norm].
  apply grows_bind; [apply grows_load_f|intros v].
  destruct v as [|a [|b [|d [|]]]]; try apply grows_raise.
  apply grows_run_strategy_h; intros xr; apply grows_fun_h.
Qed.

Lemma new_alloc (a : ndarray F) : returns_new (alloc a).
Proof.
  intros h r H; simpl in *. injection H as <-. rewrite length_app; simpl; lia.
Qed.

Lemma new_load_then_alloc (r : ref) (f : list F -> ndarray F) :
  returns_new (a <- load_f r ;; alloc (f a)).
Proof.
  intros h r' H. unfold bind, load_f, bind, load, ret in *.
  destruct (nth_error h r); simpl in *; [|discriminate].
  injection H as <-. rewrite length_app; simpl; lia.
Qed.

Lemma new_binop (op : F -> F -> F) (r1 r2 : ref) : returns_new (binop op r1 r2).
Proof.
  intros h r' H. unfold binop, bind, load_f, bind, load, ret, of_result in *.
  destruct (nth_error h r1); simpl in *; [|discriminate].
  destruct (nth_error h r2); simpl in *; [|discriminate].
  destruct (broadcast op _ _); simpl in *; [|discriminate].
  injection H as <-. rewrite length_app; simpl; lia.
Qed.

End Growth.

End Frame.

(** ** Objects: the same results as on values *)

Module Refinement.

Import Store Frame.

Section Simulation.

Context {F : Type} {SF : Scalar F}.

Local Open Scope store_scope.

Lemma preserves_refl (h : Heap F) : preserves h h.
Proof. intros r a H; exact H. Qed.

Lemma preserves_trans (h1 h2 h3 : Heap F) :
  preserves h1 h2 -> preserves h2 h3 -> preserves h1 h3.
Proof. intros H12 H23 r a H; auto. Qed.

Lemma bind_ok {A B} {m : M F A} (k : A -> M F B) {h h' : Heap F} {a : A} :
  m h = (Ok a, h') -> bind m k h = k a h'.
Proof. unfold bind; now intros ->. Qed.

Lemma bind_raise {A B} {m : M F A} (k : A -> M F B) {h h' : Heap F} {e : exn} :
  m h = (Raise e, h') -> bind m k h = (Raise e, h').
Proof. unfold bind; now intros ->. Qed.

Lemma load_f_at {h : Heap F} {r : ref} {a : ndarray F} :
  nth_error h r = Some a -> load_f r h = (Ok (as_float a), h).
Proof. intros H; unfold load_f, bind, load, ret; now rewrite H. Qed.

Lemma len_at (h : Heap F) (r : ref) {a : ndarray F} :
  nth_error h r = Some a -> len r h = (Ok (length (as_float a)), h).
Proof. intros H; unfold len; now rewrite (bind_ok _ (load_f_at H)). Qed.

Lemma getitem_at (h : Heap F) (r : ref) {a : ndarray F} (i : nat) {v : F} :
  nth_error h r = Some a -> nth_error (as_float a) i = Some v ->
  getitem r i h = (Ok v, h).
Proof.
  intros H Hi; unfold getitem. rewrite (bind_ok _ (load_f_at H)).
  now rewrite Hi.
Qed.

Lemma alloc_at (h : Heap F) (a : ndarray F) :
  exists r h', alloc a h = (Ok r, h') /\ preserves h h' /\
               nth_error h' r = Some a.
Proof.
  exists (length h), (h ++ [a]). split; [reflexivity|].
  split; [apply grows_preserves|apply nth_error_new].
Qed.

Lemma load_then_alloc_at {h : Heap F} {r : ref} {a : ndarray F}
    (f : list F -> ndarray F) :
  nth_error h r = Some a ->
  exists r' h', (x <- load_f r ;; alloc (f x)) h = (Ok r', h') /\
                preserves h h' /\ nth_error h' r' = Some (f (as_float a)).
Proof.
  intros H. rewrite (bind_ok _ (load_f_at H)). apply alloc_at.
Qed.

Lemma binop_at {h : Heap F} (op : F -> F -> F) {r1 r2 : ref} {a b : ndarray F} :
  nth_error h r1 = Some a -> nth_error h r2 = Some b ->
  match broadcast op (as_float a) (as_float b) with
  | Ok v => exists r' h', binop op r1 r2 h = (Ok r', h') /\ preserves h h' /\
                          nth_error h' r' = Some (FloatArr v)
  | Raise e => binop op r1 r2 h = (Raise e, h)
  end.
Proof.
  intros H1 H2; unfold binop.
  rewrite (bind_ok _ (load_f_at H1)), (bind_ok _ (load_f_at H2)).
  unfold bind at 1, of_result.
  destruct (broadcast op _ _) as [v|e]; [apply alloc_at|reflexivity].
Qed.

Lemma norm_at {h : Heap F} {r : ref} {a : ndarray F} (ord : Ord) :
  nth_error h r = Some a ->
  exists h', np_linalg_norm_h r ord h = (np_linalg_norm (as_float a) ord, h') /\
             preserves h h'.
Proof.
  intros H; unfold np_linalg_norm_h. rewrite (bind_ok _ (load_f_at H)).
  set (x := as_float a).
  assert (Hvia : forall (l : list F) (k : list F -> result F),
             exists h', (t <- alloc (FloatArr l) ;; v <- load_f t ;;
                         of_result (k v)) h = (k l, h') /\ preserves h h').
  { intros l k. destruct (alloc_at h (FloatArr l)) as (t & h' & E & P & L).
    exists h'. rewrite (bind_ok _ E), (bind_ok _ (load_f_at L)).
    split; [reflexivity|exact P]. }
  destruct ord as [| |p]; cbn [np_linalg_norm].
  - destruct np_release; [apply Hvia|].
    apply (Hvia _ (fun v => Ok (np_max_initial v (f_of_Z 0)))).
  - apply Hvia.
  - destruct (Z.eqb p 2); [exists h; split; [reflexivity|apply preserves_refl]|].
    destruct (Z.eqb p 0); [apply (Hvia _ (fun v => Ok (np_sum v)))|].
    destruct (Z.eqb p 1); [apply (Hvia _ (fun v => Ok (np_sum v)))|].
    eexists. unfold bind, alloc, load_f, bind, load, store, ret, raise.
    rewrite nth_error_new. cbn [as_float].
    rewrite nth_error_new, update_new, nth_error_new. cbn [as_float].
    rewrite map_map.
    destruct (f_order_fits p); (split; [reflexivity|apply grows_preserves]).
Qed.


(** Carry what is known of the store [h] over to the store that follows. *)
Ltac advance h P :=
  repeat match goal with
         | H : nth_error h _ = Some _ |- _ => apply P in H
         end;
  match goal with
  | T : preserves _ h |- _ =>
      let T' := fresh "T" in
      pose proof (preserves_trans T P) as T'; clear T
  end;
  clear P; try clear h.

Lemma cast_then_scale (l : list Z) (s : F) :
  arr_mul_s (map f_of_Z l) s = iarr_mul_s l s.
Proof. unfold arr_mul_s, iarr_mul_s; now rewrite map_map. Qed.

Lemma fun_h_at {h : Heap F} {x c m_ : ref} (norm : Ord)
    {k s m0 : F} {ac am : ndarray F} :
  nth_error h x = Some (FloatArr [k; s; m0]) ->
  nth_error h c = Some ac -> nth_error h m_ = Some am ->
  exists h', fun_h x c m_ norm h
             = (fun_ (k, s, m0) (as_float ac) (as_float am) norm, h') /\
             preserves h h'.
Proof.
  intros Hx Hc Hm. pose proof (preserves_refl h) as T.
  unfold fun_h, fun_.
  rewrite (bind_ok _ (getitem_at h x 0 Hx eq_refl)).
  rewrite (bind_ok _ (getitem_at h x 1 Hx eq_refl)).
  rewrite (bind_ok _ (getitem_at h x 2 Hx eq_refl)).
  rewrite (bind_ok _ (len_at h m_ Hm)).
  destruct (alloc_at h (IntArr (np_arange (length (as_float am)))))
    as (xl & h1 & E & P & Hxl).
  unfold np_arange_h; rewrite (bind_ok _ E); clear E.
  advance h P.
  destruct (load_then_alloc_at (fun l => FloatArr (arr_add_s l m0)) Hm)
    as (t1 & h2 & E & P & Ht1).
  unfold add_s at 1; rewrite (bind_ok _ E); clear E.
  advance h1 P.
  destruct (load_then_alloc_at (fun l => FloatArr (arr_mul_s l s)) Hxl)
    as (t2 & h3 & E & P & Ht2).
  unfold mul_s at 1; rewrite (bind_ok _ E); clear E.
  advance h2 P.
  cbn [as_float] in Ht2; rewrite cast_then_scale in Ht2.
  pose proof (binop_at f_add Ht1 Ht2) as B. cbn [as_float] in B.
  rewrite broadcast_equal in B
    by (unfold arr_add_s, iarr_mul_s;
        now rewrite !length_map, np_arange_length).
  destruct B as (M & h4 & E & P & HM).
  rewrite (bind_ok _ E); clear E.
  advance h3 P.
  destruct (load_then_alloc_at (fun l => FloatArr (arr_div_s l k)) HM)
    as (t3 & h5 & E & P & Ht3).
  unfold div_s at 1; rewrite (bind_ok _ E); clear E.
  advance h4 P.
  pose proof (binop_at f_sub Hc Ht3) as B. cbn [as_float] in B.
  destruct (broadcast f_sub (as_float ac) _) as [err|e]; cbn [rbind].
  - destruct B as (er & h6 & E & P & Her).
    rewrite (bind_ok _ E); clear E.
    advance h5 P.
    destruct (norm_at norm Her) as (h7 & E & P). cbn [as_float] in E.
    advance h6 P.
    exists h7; split; [|assumption].
    unfold bind; rewrite E.
    destruct (np_linalg_norm err norm); reflexivity.
  - rewrite (bind_raise _ B). exists h5; split; [reflexivity|assumption].
Qed.

(** A solver's run on objects answers what its run on values answers. *)
Lemma run_strategy_h_at (c m_ : ref) (norm : Ord) (ac am : ndarray F)
    (s : Strategy F) :
  forall h,
    nth_error h c = Some ac -> nth_error h m_ = Some am ->
    exists h',
      preserves h h' /\
      match run_strategy (fun x => fun_ x (as_float ac) (as_float am) norm) s with
      | Ok r =>
          exists xr,
            run_strategy_h (fun xr => fun_h xr c m_ norm) s h = (Ok (xr, r), h') /\
            nth_error h' xr = Some (FloatArr (params_list (res_x r)))
      | Raise e =>
          run_strategy_h (fun xr => fun_h xr c m_ norm) s h = (Raise e, h')
      end.
Proof.
  induction s as [r|e|x k IH]; intros h Hc Hm; cbn [run_strategy run_strategy_h].
  - destruct (res_x r) as [[a b] d] eqn:Er.
    destruct (alloc_at h (FloatArr [a; b; d])) as (xr & h1 & E & P & Hxr).
    exists h1; split; [exact P|]. exists xr.
    unfold np_array; rewrite (bind_ok _ E). split; [reflexivity|exact Hxr].
  - exists h; split; [apply preserves_refl|reflexivity].
  - destruct x as [[a b] d].
    destruct (alloc_at h (FloatArr [a; b; d])) as (xr & h1 & E & P & Hxr).
    unfold np_array; rewrite (bind_ok _ E); clear E.
    pose proof (preserves_refl h) as T. advance h P.
    destruct (fun_h_at norm Hxr Hc Hm) as (h2 & E & P).
    destruct (fun_ (a, b, d) (as_float ac) (as_float am) norm) as [v|e].
    + rewrite (bind_ok _ E); clear E. advance h1 P.
      destruct (IH v h2 Hc Hm) as (h3 & P & R).
      exists h3; split; [eapply preserves_trans; eassumption|exact R].
    + rewrite (bind_raise _ E). exists h2; split; [|reflexivity].
      eapply preserves_trans; eassumption.
Qed.

Lemma minimize_h_at (solver : Solver F) {h : Heap F} {x0 c m_ : ref}
    (method : string) (norm : Ord) (bounds : option (Bounds F))
    (g : Params F) {ac am : ndarray F} :
  nth_error h x0 = Some (FloatArr (params_list g)) ->
  nth_error h c = Some ac -> nth_error h m_ = Some am ->
  exists h',
    preserves h h' /\
    match answer solver {| mc_fun := fun_; mc_x0 := g; mc_method := method;
                           mc_args := (as_float ac, as_float am, norm);
                           mc_bounds := bounds |} with
    | Ok r =>
        exists xr,
          minimize_h solver fun_h x0 method (c, m_, norm) bounds h
            = (Ok (xr, r), h') /\
          nth_error h' xr = Some (FloatArr (params_list (res_x r)))
    | Raise e =>
        minimize_h solver fun_h x0 method (c, m_, norm) bounds h = (Raise e, h')
    end.
Proof.
  intros Hx Hc Hm. unfold minimize_h, answer.
  rewrite (bind_ok _ (load_f_at Hx)). cbn [as_float mc_method mc_x0 mc_bounds].
  destruct g as [[a b] d]; cbn [params_list].
  change (objective _) with (fun x => fun_ x (as_float ac) (as_float am) norm).
  now apply run_strategy_h_at.
Qed.

Lemma run_synthesis_eq (solver : Solver F) (c q : list F) (g1 g2 g3 : F)
    (norm : Ord) (b1 b2 b3 b4 b5 b6 : bound F) :
  run solver (synthesis c q g1 g2 g3 norm b1 b2 b3 b4 b5 b6) =
  (m_ <- baseline c q ;;
   rA <- answer solver
           {| mc_fun := fun_; mc_x0 := (g1, g2, g3); mc_method := "SLSQP"%string;
              mc_args := (c, m_, OrdInt 2);
              mc_bounds := Some ((b1, b2), (b3, b4), (b5, b6)) |} ;;
   rB <- answer solver
           {| mc_fun := fun_; mc_x0 := res_x rA; mc_method := "SLSQP"%string;
              mc_args := (c, m_, norm); mc_bounds := None |} ;;
   Ok (finish m_ (res_x rB)))%result.
Proof.
  destruct (baseline c q) as [m_|e] eqn:Hb; cbn [rbind].
  - now apply synthesis_run.
  - now rewrite synthesis_throws with (e := e).
Qed.

Ltac next P := match type of P with preserves ?h _ => advance h P end.

(** One allocating step of the program held in [Erun]. *)
Ltac alloc_step L Erun r Hr :=
  let h' := fresh "h" in let E := fresh "E" in let P := fresh "P" in
  destruct L as (r & h' & E & P & Hr);
  rewrite (bind_ok _ E) in Erun; clear E; next P.

(** [synthesis] on objects returns what [synthesis] on values returns: the
    same error, or references to arrays that hold the same sequences. *)
Theorem synthesis_h_refines (solver : Solver F) (h : Heap F) (c q : ref)
    (ac aq : ndarray F) (g1 g2 g3 : F) (norm : Ord)
    (b1 b2 b3 b4 b5 b6 : bound F) :
  nth_error h c = Some ac -> nth_error h q = Some aq ->
  match run solver (synthesis (as_float ac) (as_float aq) g1 g2 g3 norm
                              b1 b2 b3 b4 b5 b6) with
  | Ok (vc_h, vm_, vm, d) =>
      exists c_h m_ m h',
        synthesis_h solver c q g1 g2 g3 norm b1 b2 b3 b4 b5 b6 h
          = (Ok (c_h, m_, m, d), h') /\
        nth_error h' c_h = Some (FloatArr vc_h) /\
        nth_error h' m_ = Some (FloatArr vm_) /\
        nth_error h' m = Some (FloatArr vm)
  | Raise e =>
      exists h',
        synthesis_h solver c q g1 g2 g3 norm b1 b2 b3 b4 b5 b6 h = (Raise e, h')
  end.
Proof.
  intros Hc Hq. rewrite run_synthesis_eq. unfold baseline.
  remember (synthesis_h solver c q g1 g2 g3 norm b1 b2 b3 b4 b5 b6 h)
    as run_h eqn:Erun.
  pose proof (preserves_refl h) as T.
  unfold synthesis_h in Erun.
  unfold np_array at 1, np_cumsum_h at 1 2, mul_s at 1, div_s at 1 in Erun.
  alloc_step (alloc_at h (FloatArr [g1; g2; g3])) Erun x0 Hx0.
  alloc_step (load_then_alloc_at (fun l => FloatArr (np_cumsum l)) Hq)
             Erun t Ht.
  alloc_step (load_then_alloc_at (fun l => FloatArr (np_cumsum l)) Ht)
             Erun mr Hmr.
  cbn [as_float] in Hmr.
  destruct (norm_at OrdInf Hc) as (h3 & E & P).
  destruct (np_linalg_norm (as_float ac) OrdInf) as [nc|e] eqn:Enc;
    cbn [rbind];
    [|rewrite (bind_raise _ E) in Erun; subst run_h; eauto].
  rewrite (bind_ok _ E) in Erun; clear E; next P.
  alloc_step (load_then_alloc_at (fun l => FloatArr (arr_mul_s l nc)) Hmr)
             Erun sc Hsc.
  destruct (norm_at OrdInf Hmr) as (h5 & E & P). cbn [as_float] in E, Hsc.
  destruct (np_linalg_norm (np_cumsum (np_cumsum (as_float aq))) OrdInf)
    as [nm|e] eqn:Enm; cbn [rbind];
    [|rewrite (bind_raise _ E) in Erun; subst run_h; eauto].
  rewrite (bind_ok _ E) in Erun; clear E; next P.
  alloc_step (load_then_alloc_at (fun l => FloatArr (arr_div_s l nm)) Hsc)
             Erun m_ Hm_.
  cbn [as_float] in Hm_.
  set (vm_ := arr_div_s (arr_mul_s (np_cumsum (np_cumsum (as_float aq))) nc) nm)
    in *.
  (* stage A *)
  destruct (minimize_h_at solver "SLSQP"%string (OrdInt 2)
              (Some ((b1, b2), (b3, b4), (b5, b6))) (g1, g2, g3) Hx0 Hc Hm_)
    as (h7 & P & R). cbn [as_float] in R.
  destruct (answer solver _) as [rA|e]; cbn [rbind];
    [|rewrite (bind_raise _ R) in Erun; subst run_h; eauto].
  destruct R as (xA & E & HxA).
  rewrite (bind_ok _ E) in Erun; clear E; next P. cbn [fst] in Erun.
  destruct (res_x rA) as [[k s] m0]; cbn [params_list] in HxA.
  rewrite (bind_ok _ (getitem_at _ xA 0 HxA eq_refl)) in Erun.
  rewrite (bind_ok _ (getitem_at _ xA 1 HxA eq_refl)) in Erun.
  rewrite (bind_ok _ (getitem_at _ xA 2 HxA eq_refl)) in Erun.
  unfold np_array at 1, np_cumsum_h at 1 2, mul_s at 1, div_s at 1 in Erun.
  alloc_step (alloc_at h7 (FloatArr [k; s; m0])) Erun x0' Hx0'.
  alloc_step (load_then_alloc_at (fun l => FloatArr (np_cumsum l)) Hq)
             Erun t' Ht'.
  alloc_step (load_then_alloc_at (fun l => FloatArr (np_cumsum l)) Ht')
             Erun mr' Hmr'.
  cbn [as_float] in Hmr'.
  destruct (norm_at OrdInf Hc) as (h11 & E & P). rewrite Enc in E.
  rewrite (bind_ok _ E) in Erun; clear E; next P.
  alloc_step (load_then_alloc_at (fun l => FloatArr (arr_mul_s l nc)) Hmr')
             Erun sc' Hsc'.
  destruct (norm_at OrdInf Hmr') as (h13 & E & P). cbn [as_float] in E, Hsc'.
  rewrite Enm in E.
  rewrite (bind_ok _ E) in Erun; clear E; next P.
  alloc_step (load_then_alloc_at (fun l => FloatArr (arr_div_s l nm)) Hsc')
             Erun m_' Hm_'.
  cbn [as_float] in Hm_'. fold vm_ in Hm_'.
  (* stage B *)
  destruct (minimize_h_at solver "SLSQP"%string norm None (k, s, m0) Hx0' Hc Hm_')
    as (h15 & P & R). cbn [as_float] in R.
  destruct (answer solver _) as [rB|e]; cbn [rbind];
    [|rewrite (bind_raise _ R) in Erun; subst run_h; eauto].
  destruct R as (xB & E & HxB).
  rewrite (bind_ok _ E) in Erun; clear E; next P. cbn [fst] in Erun.
  unfold finish.
  destruct (res_x rB) as [[k' s'] m0']; cbn [params_list] in HxB.
  rewrite (bind_ok _ (getitem_at _ xB 0 HxB eq_refl)) in Erun.
  rewrite (bind_ok _ (getitem_at _ xB 1 HxB eq_refl)) in Erun.
  rewrite (bind_ok _ (getitem_at _ xB 2 HxB eq_refl)) in Erun.
  rewrite (bind_ok _ (len_at _ m_' Hm_')) in Erun. cbn [as_float] in Erun.
  unfold np_arange_h, add_s, mul_s, div_s in Erun.
  alloc_step (alloc_at h15 (IntArr (@np_arange (length vm_)))) Erun xl Hxl.
  alloc_step (load_then_alloc_at (fun l => FloatArr (arr_add_s l m0')) Hm_')
             Erun t1 Ht1.
  alloc_step (load_then_alloc_at (fun l => FloatArr (arr_mul_s l s')) Hxl)
             Erun t2 Ht2.
  cbn [as_float] in Ht1, Ht2. rewrite cast_then_scale in Ht2.
  pose proof (binop_at f_add Ht1 Ht2) as B. cbn [as_float] in B.
  rewrite broadcast_equal in B
    by (unfold arr_add_s, iarr_mul_s;
        now rewrite !length_map, np_arange_length).
  alloc_step B Erun m Hm.
  alloc_step (load_then_alloc_at (fun l => FloatArr (arr_div_s l k')) Hm)
             Erun c_h Hc_h.
  cbn [as_float] in Hc_h. unfold ret in Erun. subst run_h.
  eexists c_h, m_', m, _. split; [reflexivity|]. auto.
Qed.
End Simulation.

End Refinement.

(** ** Objects: the inputs of a call *)

Module FrameClaims.

Import Store Frame.

Section Calls.

Context {F : Type} {SF : Scalar F}.

Local Open Scope store_scope.

Ltac solve_grows :=
  unfold np_array, np_arange_h, np_cumsum_h, add_s, mul_s, div_s;
  repeat first
    [ apply grows_ret
    | apply grows_alloc
    | apply grows_getitem
    | apply grows_len
    | apply grows_binop
    | apply grows_norm
    | apply grows_minimize_h
    | apply grows_load_then_alloc
    | apply grows_bind; [|intros ?] ].

Ltac solve_new :=
  unfold np_array, np_arange_h, np_cumsum_h, add_s, mul_s, div_s;
  first [ apply new_alloc | apply new_load_then_alloc | apply new_binop ].

Lemma bind_ok_inv {A B} (m : M F A) (k : A -> M F B) (h : Heap F) (b : B) :
  fst (bind m k h) = Ok b ->
  exists a h1, m h = (Ok a, h1) /\ fst (k a h1) = Ok b /\
               snd (bind m k h) = snd (k a h1).
Proof.
  unfold bind; destruct (m h) as [[a|e] h1]; simpl; intros H;
    [eauto|discriminate].
Qed.

Lemma grows_synthesis_h (solver : Solver F) (c q : ref) (g1 g2 g3 : F)
    (norm : Ord) (b1 b2 b3 b4 b5 b6 : bound F) :
  grows (synthesis_h solver c q g1 g2 g3 norm b1 b2 b3 b4 b5 b6).
Proof. unfold synthesis_h. solve_grows. Qed.

(** Facts about one step that has run. *)
Ltac step_facts :=
  repeat match goal with
         | E : ?m ?h = (Ok ?a, ?h1) |- _ =>
             let Hg := fresh "Hg" in
             let Hl := fresh "Hl" in
             assert (Hg : grows m) by solve_grows;
             destruct (Hg h) as [? Hl];
             rewrite E in Hl; cbn [snd] in Hl;
             apply (f_equal (@length _)) in Hl; rewrite length_app in Hl;
             try (let Hn := fresh "Hn" in
                  assert (Hn : returns_new m) by solve_new;
                  specialize (Hn h a); rewrite E in Hn; cbn [fst snd] in Hn;
                  specialize (Hn eq_refl));
             clear Hg; revert E
         end; intros.

Lemma synthesis_h_outputs_new (solver : Solver F) (c q : ref) (g1 g2 g3 : F)
    (norm : Ord) (b1 b2 b3 b4 b5 b6 : bound F) (h : Heap F)
    (c_h m_ m : ref) (d : list (string * F)) :
  fst (synthesis_h solver c q g1 g2 g3 norm b1 b2 b3 b4 b5 b6 h)
    = Ok (c_h, m_, m, d) ->
  let h' := snd (synthesis_h solver c q g1 g2 g3 norm b1 b2 b3 b4 b5 b6 h) in
  fresh_in h h' c_h /\ fresh_in h h' m_ /\ fresh_in h h' m.
Proof.
  intros H h'; subst h'. unfold synthesis_h in *.
  repeat (apply bind_ok_inv in H as (? & ? & ? & H & ->)).
  cbn [ret fst snd] in *. injection H as <- <- <- <-.
  step_facts. unfold fresh_in. lia.
Qed.

(** C10.  Whatever the solver does and however the call ends, [synthesis]
    leaves every array object it found, [c] and [q] among them, with the
    items it had, and the three sequences it returns are objects it has
    made itself.  [fun] leaves every object it found, [x], [c] and [m_]
    among them, as it was. *)
Theorem calls_leave_their_inputs_unchanged :
  (forall solver c q g1 g2 g3 norm b1 b2 b3 b4 b5 b6 (h : Heap F),
     let r := synthesis_h solver c q g1 g2 g3 norm b1 b2 b3 b4 b5 b6 h in
     preserves h (snd r) /\
     forall c_h m_ m d,
       fst r = Ok (c_h, m_, m, d) ->
       fresh_in h (snd r) c_h /\ fresh_in h (snd r) m_ /\
       fresh_in h (snd r) m) /\
  (forall x c m_ norm (h : Heap F),
     preserves h (snd (fun_h x c m_ norm h))).
Proof.
  split.
  - intros solver c q g1 g2 g3 norm b1 b2 b3 b4 b5 b6 h r. split.
    + destruct (grows_synthesis_h solver c q g1 g2 g3 norm b1 b2 b3 b4 b5 b6 h)
        as [t E].
      unfold r; rewrite E. apply grows_preserves.
    + intros c_h m_ m d H. now apply synthesis_h_outputs_new with (d := d).
  - intros x c m_ norm h. destruct (grows_fun_h x c m_ norm h) as [t E].
    rewrite E. apply grows_preserves.
Qed.

End Calls.

End FrameClaims.

(** ** The theorems at concrete inputs *)

Module Instances.

Import Exact SpecWords Scenarios Today.

Lemma synthesis_outputs_have_length_n_at_mid_span :
  (length c_mid = 5 /\ length q_mid = 5 /\ 1 <= 5) /\
  (forall rA rB, exists out, after (after prog_mid rA) rB = Ret out) /\
  (forall solver c_h m_ m d,
     run solver prog_mid = Ok (c_h, m_, m, d) ->
     length c_h = 5 /\ length m_ = 5 /\ length m = 5).
Proof.
  split; [repeat split; lia|].
  apply (@synthesis_outputs_have_length_n R Scalar_R c_mid q_mid
           1%R 0%R 0%R (OrdInt 1) NegInf PosInf NegInf PosInf NegInf PosInf 5);
    [reflexivity|reflexivity|lia].
Defined.

Lemma bounds_and_guesses_unchecked_at_guess_out :
  ([1; 2; 3]%R <> [] /\ [1; 0; 0]%R <> []) /\
  exists callA,
    first_call prog_guess_out = Some callA /\
    mc_x0 callA = (5, 0, 0)%R /\
    mc_bounds callA =
      Some ((Fin 0%R, Fin 1%R), (NegInf, PosInf), (NegInf, PosInf)) /\
    baseline [1; 2; 3]%R [1; 0; 0]%R = Ok (call_m_ callA).
Proof.
  split; [split; discriminate|].
  apply (@bounds_and_guesses_go_to_the_minimizer_unchecked R Scalar_R
           [1; 2; 3]%R [1; 0; 0]%R 5%R 0%R 0%R (OrdInt 1)
           (Fin 0%R) (Fin 1%R) NegInf PosInf NegInf PosInf); discriminate.
Defined.

Lemma result_is_built_from_final_x_alone_at_mid_span :
  (c_mid <> [] /\ q_mid <> []) /\
  forall rA rB,
    (exists c_h m_ m,
       after (after prog_mid rA) rB =
       Ret (c_h, m_, m, [("dyn_stiff", fst (fst (res_x rB)));
                         ("s_0", snd (fst (res_x rB)));
                         ("m_0", snd (res_x rB))]%string)) /\
    (forall rB', res_x rB' = res_x rB ->
       after (after prog_mid rA) rB' = after (after prog_mid rA) rB).
Proof.
  split; [split; discriminate|].
  apply (@result_is_built_from_final_x_alone R Scalar_R c_mid q_mid
           1%R 0%R 0%R (OrdInt 1) NegInf PosInf NegInf PosInf NegInf PosInf);
    discriminate.
Defined.

Lemma shape_errors_at_empty_and_at_2_against_3 :
  (@synthesis R (@Scalar_R numpy_upto_2_2) (@nil R) [1%R] 1%R 0%R 0%R
              (OrdInt 1) NegInf PosInf NegInf PosInf NegInf PosInf =
   Throw (ValueError
     "zero-size array to reduction operation maximum which has no identity")) /\
  (exists callA,
     first_call (@synthesis R (@Scalar_R numpy_from_2_3) (@nil R) [1%R]
                   1%R 0%R 0%R (OrdInt 1)
                   NegInf PosInf NegInf PosInf NegInf PosInf) = Some callA /\
     length (call_m_ callA) = length [1%R]) /\
  (exists callA,
     first_call prog_c1_q3 = Some callA /\
     forall x, exists v, objective callA x = Ok v) /\
  (exists callA,
     first_call (synthesis [1; 2]%R [1; 2; 3]%R 1%R 0%R 0%R (OrdInt 1)
                           NegInf PosInf NegInf PosInf NegInf PosInf)
       = Some callA /\
     length (call_m_ callA) = 3 /\
     (forall x, objective callA x =
        Raise (ValueError "operands could not be broadcast together")) /\
     (forall solver x k,
        solver "SLSQP"%string (1, 0, 0)%R
               (Some ((NegInf, PosInf), (NegInf, PosInf), (NegInf, PosInf)))
          = Ask x k ->
        run solver (synthesis [1; 2]%R [1; 2; 3]%R 1%R 0%R 0%R (OrdInt 1)
                              NegInf PosInf NegInf PosInf NegInf PosInf) =
        Raise (ValueError "operands could not be broadcast together"))).
Proof.
  split; [|split; [|split]].
  - apply (proj1 (@shape_errors_as_raised R (@Scalar_R numpy_upto_2_2)
                    (@nil R) [1%R] 1%R 0%R 0%R (OrdInt 1)
                    NegInf PosInf NegInf PosInf NegInf PosInf));
      [reflexivity|left; reflexivity].
  - apply (proj1 (proj2 (@shape_errors_as_raised R (@Scalar_R numpy_from_2_3)
                           (@nil R) [1%R] 1%R 0%R 0%R (OrdInt 1)
                           NegInf PosInf NegInf PosInf NegInf PosInf)));
      [reflexivity|left; reflexivity].
  - apply (proj1 (proj2 (proj2
             (@shape_errors_as_raised R Scalar_R [1%R] [1; 2; 3]%R
                1%R 0%R 0%R (OrdInt 1)
                NegInf PosInf NegInf PosInf NegInf PosInf))));
      first [discriminate | left; reflexivity].
  - apply (proj2 (proj2 (proj2
             (@shape_errors_as_raised R Scalar_R [1; 2]%R [1; 2; 3]%R
                1%R 0%R 0%R (OrdInt 1)
                NegInf PosInf NegInf PosInf NegInf PosInf))));
      simpl; first [discriminate | lia].
Defined.

Lemma baseline_is_scaled_double_prefix_sum_at_mid_span :
  (length c_mid = 5 /\ length q_mid = 5 /\ 1 <= 5) /\
  exists nc nm,
    max_abs c_mid nc /\
    max_abs (prefix_sum (prefix_sum q_mid)) nm /\
    let scale := (nc / nm)%R in
    let m_ := map (fun v => (v * scale)%R) (prefix_sum (prefix_sum q_mid)) in
    (exists callA, first_call prog_mid = Some callA /\ call_m_ callA = m_) /\
    (forall rA, exists callB,
        first_call (after prog_mid rA) = Some callB /\ call_m_ callB = m_) /\
    (forall rA rB, exists c_h m d,
        after (after prog_mid rA) rB = Ret (c_h, m_, m, d)).
Proof.
  split; [repeat split; lia|].
  apply (@ExactFacts.baseline_is_scaled_double_prefix_sum numpy_today c_mid q_mid
           1%R 0%R 0%R (OrdInt 1) NegInf PosInf NegInf PosInf NegInf PosInf 5);
    [reflexivity|reflexivity|lia].
Defined.

Lemma fun_is_norm_of_residual_at_order_3 :
  (length [1; 2]%R = 2 /\ length [2; 4]%R = 2) /\
  fun_ (2, 0, 0)%R [1; 2]%R [2; 4]%R (OrdInt 3) =
    np_linalg_norm (residuals (2, 0, 0)%R [1; 2]%R [2; 4]%R) (OrdInt 3) /\
  length (residuals (2, 0, 0)%R [1; 2]%R [2; 4]%R) = 2 /\
  (forall p, OrdInt 3 = OrdInt p -> (1 <= p)%Z ->
     exists v, fun_ (2, 0, 0)%R [1; 2]%R [2; 4]%R (OrdInt 3) = Ok v /\
               (0 <= v)%R /\
               (v ^ Z.to_nat p)%R =
               sum_abs_pow (Z.to_nat p) (residuals (2, 0, 0)%R [1; 2]%R [2; 4]%R)) /\
  (OrdInt 3 = OrdInf -> 1 <= 2 ->
     exists v, fun_ (2, 0, 0)%R [1; 2]%R [2; 4]%R (OrdInt 3) = Ok v /\
               max_abs (residuals (2, 0, 0)%R [1; 2]%R [2; 4]%R) v).
Proof.
  split; [split; reflexivity|].
  apply (@ExactLoss.fun_is_norm_of_residual numpy_today (2, 0, 0)%R [1; 2]%R [2; 4]%R
           (OrdInt 3) 2); reflexivity.
Defined.

Import Binary64.

Lemma fun_at_zero_stiffness_at_order_3 :
  ((forall y, positive y = true -> pow_specials pinf y = pinf) /\
   (forall y, positive y = true -> pow_specials nan y = nan) /\
   is_zero zero = true /\
   length [of_Z 1; of_Z 2] = 2 /\ length [of_Z 1; of_Z 3] = 2 /\ 1 <= 2 /\
   allowed_order (OrdInt 3) = true) /\
  exists v,
    @fun_ _ (Scalar_float64 pow_specials) (zero, zero, zero)
          [of_Z 1; of_Z 2] [of_Z 1; of_Z 3] (OrdInt 3) = Ok v /\
    (v = pinf \/ v = nan).
Proof.
  assert (H1 : forall y, positive y = true -> pow_specials pinf y = pinf)
    by (intros y Hy; unfold pow_specials, pinf; now rewrite Hy).
  assert (H2 : forall y, positive y = true -> pow_specials nan y = nan)
    by (intros y Hy; reflexivity).
  split; [repeat split; try assumption; try reflexivity; lia|].
  apply (@ZeroStiffness.fun_at_zero_stiffness pow_specials H1 H2 numpy_today
           (zero, zero, zero) [of_Z 1; of_Z 2] [of_Z 1; of_Z 3] (OrdInt 3) 2);
    first [reflexivity | lia].
Defined.

(** Every order from 1 to 300, and the powers of two up to 2^62, are
    allowed orders. *)
Example small_orders_allowed :
  forallb (fun p => allowed_order (OrdInt p)) (map Z.of_nat (seq 1 300)) = true
  /\ forallb (fun k => allowed_order (OrdInt (2 ^ Z.of_nat k))) (seq 0 63) = true.
Proof. split; vm_compute; reflexivity. Qed.

(** Empty input, release by release: up to NumPy 2.2 the normalisation
    raises; from NumPy 2.3 on it gives an empty baseline moment, both
    minimizer calls are made, and the call returns. *)
Example empty_input_by_release :
  @baseline R (@Scalar_R numpy_upto_2_2) [] [] =
    Raise (ValueError
      "zero-size array to reduction operation maximum which has no identity") /\
  @baseline R (@Scalar_R numpy_from_2_3) [] [] = Ok [] /\
  run (@stop_at_start R (@Scalar_R numpy_from_2_3) true)
      (@synthesis R (@Scalar_R numpy_from_2_3) [] [] 1%R 0%R 0%R (OrdInt 1)
         NegInf PosInf NegInf PosInf NegInf PosInf) =
  Ok ([], [], [],
      [("dyn_stiff"%string, 1%R); ("s_0"%string, 0%R); ("m_0"%string, 0%R)]).
Proof. repeat split; reflexivity. Qed.

(** An order that is no machine integer is not an allowed order: NumPy
    does not convert it, and [fun] raises. *)
Example order_2_64_raises :
  allowed_order (OrdInt (2 ^ 63)) = false /\
  allowed_order (OrdInt (2 ^ 64)) = false /\
  @fun_ _ (Scalar_float64 pow_specials) (one, zero, zero)
        [of_Z 1; of_Z 2] [of_Z 1; of_Z 3] (OrdInt (2 ^ 64)) = Raise CastError.
Proof. repeat split; vm_compute; reflexivity. Qed.

(** In binary64 the code's [m * nc / nm] and the product of [m] with the
    quotient [nc / nm] can differ in the last bit: 3 * 1 / 10 is the
    float nearest to 0.3, and 3 * (1 / 10) is the next one up. *)
Example scale_rounding_binary64 :
  SFdiv prec emax (SFmul prec emax (of_Z 3) (of_Z 1)) (of_Z 10)
    = S754_finite false 5404319552844595 (-54) /\
  SFmul prec emax (of_Z 3) (SFdiv prec emax (of_Z 1) (of_Z 10))
    = S754_finite false 5404319552844596 (-54).
Proof. split; vm_compute; reflexivity. Qed.

(** Binary64 runs of [fun] at a zero stiffness: a non-zero moment over zero
    is an infinity, a zero moment over zero is NaN. *)
Example loss_at_zero_stiffness_inf :
  @fun_ _ (Scalar_float64 pow_specials) (zero, zero, zero)
        [of_Z 1; of_Z 2] [of_Z 1; of_Z 3] (OrdInt 1) = Ok pinf.
Proof. vm_compute. reflexivity. Qed.

Example loss_at_zero_stiffness_nan :
  @fun_ _ (Scalar_float64 pow_specials) (zero, zero, zero)
        [of_Z 1; of_Z 2] [of_Z 0; of_Z 3] (OrdInt 2) = Ok nan.
Proof. vm_compute. reflexivity. Qed.

Example loss_at_unit_stiffness :
  @fun_ _ (Scalar_float64 pow_specials) (of_Z 1, zero, zero)
        [of_Z 1; of_Z 2] [of_Z 1; of_Z 5] (OrdInt 1) = Ok (of_Z 3).
Proof. vm_compute. reflexivity. Qed.

End Instances.


(** * Further properties of the code *)

(** ** When [fun] and [synthesis] raise *)

Section Raising.

Context {F : Type} {SF : Scalar F}.

Lemma broadcast_length (op : F -> F -> F) (a b v : list F) :
  broadcast op a b = Ok v ->
  (v = [] <-> a = [] \/ b = []).
Proof.
  unfold broadcast.
  destruct (Nat.eqb_spec (length a) (length b)) as [E|NE].
  - intros H; injection H as <-.
    destruct a as [|x a], b as [|y b]; simpl in *; try discriminate;
      intuition discriminate.
  - destruct a as [|x [|x' a]]; destruct b as [|y [|y' b]]; simpl in *;
      intros H; try discriminate; try (now contradiction NE);
      injection H as <-; simpl; intuition discriminate.
Qed.

Lemma broadcast_ok_iff (op : F -> F -> F) (a b : list F) :
  (exists v, broadcast op a b = Ok v) <->
  length a = length b \/ length a = 1 \/ length b = 1.
Proof.
  split.
  - intros [v H].
    destruct (Nat.eq_dec (length a) (length b)) as [E|NE]; [now left|].
    destruct (Nat.eq_dec (length a) 1) as [E1|N1]; [now right; left|].
    destruct (Nat.eq_dec (length b) 1) as [E2|N2]; [now right; right|].
    rewrite broadcast_mismatch in H by assumption. discriminate.
  - intros [E|H]; [rewrite broadcast_equal by exact E; eauto|].
    now apply broadcast_stretch.
Qed.

(** When [np.linalg.norm] returns: the orders 0, 1 and 2 always; another
    number when NumPy converts it; minus infinity on a non-empty array;
    infinity on a non-empty array and, from NumPy 2.3 on, on an empty one
    too. *)
Lemma norm_ok_iff (e : list F) (norm : Ord) :
  (exists v, np_linalg_norm e norm = Ok v) <->
  match norm with
  | OrdInf => np_release = numpy_from_2_3 \/ e <> []
  | OrdNegInf => e <> []
  | OrdInt p => (0 <= p <= 2)%Z \/ f_order_fits p = true
  end.
Proof.
  destruct norm as [| |p]; cbn [np_linalg_norm].
  - destruct np_release.
    + destruct e as [|a e]; simpl; split.
      * intros [v H]; discriminate.
      * intros [H|H]; [discriminate|congruence].
      * intros _; right; discriminate.
      * eauto.
    + split; [now left|eauto].
  - destruct e as [|a e]; simpl; split.
    + intros [v H]; discriminate.
    + congruence.
    + intros _; discriminate.
    + eauto.
  - destruct (Z.eqb_spec p 2); [split; [intros _; left; lia|eauto]|].
    destruct (Z.eqb_spec p 0); [split; [intros _; left; lia|eauto]|].
    destruct (Z.eqb_spec p 1); [split; [intros _; left; lia|eauto]|].
    destruct (f_order_fits p); split.
    + now right.
    + eauto.
    + intros [v H]; discriminate.
    + intros [H|H]; [lia|discriminate].
Qed.

(** [fun] returns a loss exactly when the shapes of [c] and [m_] can be
    broadcast (equal lengths, or one of them of length 1) and the norm of
    the residual returns: for the orders 0, 1 and 2 always, for another
    integer order when it is a machine integer that NumPy converts, for
    minus infinity when the sequences are not empty, for infinity when
    they are not empty or the NumPy is 2.3 or later.  In every other case
    it raises. *)
Theorem fun_returns_iff (x : Params F) (c m_ : list F) (norm : Ord) :
  (exists v, fun_ x c m_ norm = Ok v) <->
  (length c = length m_ \/ length c = 1 \/ length m_ = 1) /\
  match norm with
  | OrdInf => np_release = numpy_from_2_3 \/ (c <> [] /\ m_ <> [])
  | OrdNegInf => c <> [] /\ m_ <> []
  | OrdInt p => (0 <= p <= 2)%Z \/ f_order_fits p = true
  end.
Proof.
  unfold fun_; destruct x as [[k s] m0].
  set (M := arr_div_s (zip_with f_add (arr_add_s m_ m0)
                         (iarr_mul_s (np_arange (length m_)) s)) k).
  assert (HM : length M = length m_)
    by (unfold M, arr_div_s; now rewrite length_map, moment_length).
  assert (HMnil : M = [] <-> m_ = []).
  { split; intros E; apply length_zero_iff_nil;
      apply (f_equal (@length _)) in E; simpl in E; congruence. }
  assert (Hne : forall err, broadcast f_sub c M = Ok err ->
                  (err <> [] <-> c <> [] /\ m_ <> [])).
  { intros err Eb. pose proof (broadcast_length _ _ _ Eb) as Hl.
    rewrite <- HMnil. split.
    - intros H; split; intros E; apply H, Hl; [now left|now right].
    - intros [H1 H2] E. apply Hl in E. destruct E; contradiction. }
  rewrite <- HM. split.
  - intros [v H].
    destruct (broadcast f_sub c M) as [err|e] eqn:Eb; cbn [rbind] in H;
      [|discriminate].
    split; [apply (broadcast_ok_iff f_sub); eauto|].
    destruct (np_linalg_norm err norm) as [w|e] eqn:En; [|discriminate].
    assert (Hok : exists v, np_linalg_norm err norm = Ok v) by eauto.
    apply norm_ok_iff in Hok. specialize (Hne err eq_refl).
    destruct norm as [| |p]; [|now apply Hne|exact Hok].
    destruct Hok as [Hok|Hok]; [now left|right; now apply Hne].
  - intros [Hb Hn].
    destruct (proj2 (broadcast_ok_iff f_sub c M) Hb) as [err Eb].
    rewrite Eb; cbn [rbind]. specialize (Hne err Eb).
    destruct (proj2 (norm_ok_iff err norm)) as [v ->]; [|cbn; eauto].
    destruct norm as [| |p]; [|now apply Hne|exact Hn].
    destruct Hn as [Hn|Hn]; [now left|right; now apply Hne].
Qed.

Variables (c q : list F) (g_dyn_stiff g_s_0 g_m_0 : F) (norm : Ord).
Variables (dyn_stiff_min dyn_stiff_max s_0_min s_0_max m_0_min m_0_max : bound F).

Let prog : Prog F (Output F) :=
  synthesis c q g_dyn_stiff g_s_0 g_m_0 norm
            dyn_stiff_min dyn_stiff_max s_0_min s_0_max m_0_min m_0_max.

Lemma reaches_stage_A (m_ : list F) :
  baseline c q = Ok m_ -> exists call, first_call prog = Some call.
Proof. intros Hb; eexists; apply synthesis_stage_A; exact Hb. Qed.

(** Whether [synthesis] raises of its own, before any call of the
    minimizer, is left to the NumPy release: up to NumPy 2.2 it does so
    exactly when [c] or [q] is empty; from NumPy 2.3 on it never does, and
    always reaches the stage-A call.  What it raises is the ValueError of
    a maximum over no items. *)
Theorem synthesis_raises_iff_empty_before_numpy_2_3 :
  ((exists e, prog = Throw e) <->
   np_release = numpy_upto_2_2 /\ (c = [] \/ q = [])) /\
  ((exists call, first_call prog = Some call) <->
   np_release = numpy_from_2_3 \/ (c <> [] /\ q <> [])) /\
  (forall e, prog = Throw e ->
     e = ValueError
       "zero-size array to reduction operation maximum which has no identity").
Proof.
  assert (Hcases : (np_release = numpy_upto_2_2 /\ (c = [] \/ q = [])) \/
                   (np_release = numpy_from_2_3 \/ (c <> [] /\ q <> []))).
  { destruct np_release; [|right; now left].
    destruct c; [left; split; [reflexivity|now left]|].
    destruct q; [left; split; [reflexivity|now right]|].
    right; right; split; discriminate. }
  assert (Hthrow : np_release = numpy_upto_2_2 /\ (c = [] \/ q = []) ->
            prog = Throw (ValueError
              "zero-size array to reduction operation maximum which has no identity")).
  { intros [E H]. apply synthesis_throws. now apply baseline_empty. }
  assert (Hcall : np_release = numpy_from_2_3 \/ (c <> [] /\ q <> []) ->
            exists call, first_call prog = Some call).
  { intros [E|[Hc Hq]].
    - destruct (baseline_always c q E) as (m_ & Hb & _).
      exact (reaches_stage_A Hb).
    - destruct (baseline_ok Hc Hq) as (m_ & Hb & _).
      exact (reaches_stage_A Hb). }
  split; [|split].
  - split; [|intros H; eexists; now apply Hthrow].
    intros [e He]. destruct Hcases as [H|H]; [exact H|].
    destruct (Hcall H) as [call HA]. rewrite He in HA. discriminate.
  - split; [|exact Hcall].
    intros [call HA]. destruct Hcases as [H|H]; [|exact H].
    rewrite (Hthrow H) in HA. discriminate.
  - intros e He. destruct Hcases as [H|H].
    + rewrite (Hthrow H) in He. now injection He as <-.
    + destruct (Hcall H) as [call HA]. rewrite He in HA. discriminate.
Qed.

(** Whatever the length of [c], the three sequences that a run of
    [synthesis] returns have the length of [q]. *)
Theorem outputs_have_the_length_of_q (solver : Solver F)
    (c_h m_ m : list F) (d : list (string * F)) :
  run solver prog = Ok (c_h, m_, m, d) ->
  length c_h = length q /\ length m_ = length q /\ length m = length q.
Proof.
  intros Hrun.
  destruct (baseline c q) as [b|e] eqn:Hb.
  - unfold prog in Hrun; rewrite synthesis_run with (m_ := b) in Hrun by exact Hb.
    destruct (answer solver _) as [rA|e]; simpl in Hrun; [|discriminate].
    destruct (answer solver _) as [rB|e]; simpl in Hrun; [|discriminate].
    injection Hrun as Hrun.
    pose proof (finish_lengths b (res_x rB)) as HL.
    rewrite Hrun in HL. destruct HL as (H1 & H2 & H3); subst m_.
    rewrite H1, H3, (baseline_length _ _ Hb); auto.
  - unfold prog in Hrun; rewrite synthesis_throws with (e := e) in Hrun
      by exact Hb. discriminate.
Qed.

End Raising.

(** ** Which input reaches which stage *)

Section Wiring.

Context {F : Type} {SF : Scalar F}.

(** The order asked for by the caller does not reach stage A, which is
    the same call whatever [norm] is; the initial guesses and the six
    bounds reach stage A only: what follows the stage-A answer depends on
    them through [res.x] of that answer and on nothing else of it. *)
Theorem each_input_reaches_its_stage (c q : list F)
    (g1 g2 g3 g1' g2' g3' : F) (norm norm' : Ord)
    (b1 b2 b3 b4 b5 b6 b1' b2' b3' b4' b5' b6' : bound F) :
  first_call (synthesis c q g1 g2 g3 norm b1 b2 b3 b4 b5 b6) =
  first_call (synthesis c q g1 g2 g3 norm' b1 b2 b3 b4 b5 b6) /\
  (forall rA rA', res_x rA = res_x rA' ->
     after (synthesis c q g1 g2 g3 norm b1 b2 b3 b4 b5 b6) rA =
     after (synthesis c q g1' g2' g3' norm b1' b2' b3' b4' b5' b6') rA').
Proof.
  unfold synthesis.
  destruct (np_linalg_norm c OrdInf) as [nc|e1]; cbn [pbind lift];
    [|split; reflexivity].
  destruct (np_linalg_norm (np_cumsum (np_cumsum q)) OrdInf) as [nm|e2];
    cbn [pbind lift minimize first_call after]; [|split; reflexivity].
  split; [reflexivity|]. intros rA rA' E. now rewrite E.
Qed.

End Wiring.

(** ** Exact arithmetic: scaling, and where the loss vanishes *)

Module ExactScaling.

Import Exact.
Local Open Scope R_scope.

Section Release.

Context {numpy : NumPy}.

Lemma fold_Rmax_scale (t : R) (l : list R) (a : R) :
  0 <= t ->
  fold_left Rmax (map (fun v => t * v) l) (t * a) = t * fold_left Rmax l a.
Proof.
  intros Ht; revert a; induction l as [|b l IH]; intros a; simpl;
    [reflexivity|].
  now rewrite RmaxRmult, IH.
Qed.

Lemma fold_Rmax_ge (l : list R) (a : R) : a <= fold_left Rmax l a.
Proof. now destruct (ExactFacts.fold_Rmax_spec l a) as (_ & H & _). Qed.

Lemma norm_inf_nonneg (l : list R) (n : R) :
  np_linalg_norm l OrdInf = Ok n -> 0 <= n.
Proof.
  destruct l as [|a l].
  - cbn [np_linalg_norm np_release Scalar_R]. destruct numpy; intros H;
      [discriminate|]. injection H as <-. cbn. lra.
  - rewrite ExactFacts.norm_inf_cons. intros H; injection H as <-.
    pose proof (fold_Rmax_ge (map Rabs l) (Rabs a)). pose proof (Rabs_pos a).
    lra.
Qed.

(** The infinity norm of a scaled array. *)
Lemma norm_inf_scale (t : R) (l : list R) :
  np_linalg_norm (map (fun v => t * v) l) OrdInf =
  match np_linalg_norm l OrdInf with
  | Ok n => Ok (Rabs t * n)
  | Raise e => Raise e
  end.
Proof.
  destruct l as [|a l].
  { cbn [np_linalg_norm np_release Scalar_R map]. destruct numpy;
      [reflexivity|]. cbn. f_equal. ring. }
  cbn [map]. rewrite !ExactFacts.norm_inf_cons. f_equal.
  rewrite map_map, Rabs_mult.
  rewrite <- (fold_Rmax_scale (map Rabs l) (Rabs a) (Rabs_pos t)).
  rewrite map_map. f_equal. apply map_ext; intros v. apply Rabs_mult.
Qed.

Lemma accumulate_scale (t : R) (l : list R) (acc : R) :
  accumulate (t * acc) (map (fun v => t * v) l)
  = map (fun v => t * v) (accumulate acc l).
Proof.
  revert acc; induction l as [|a l IH]; intros acc; simpl; [reflexivity|].
  cbn [f_add Scalar_R]. rewrite <- Rmult_plus_distr_l. now rewrite IH.
Qed.

Lemma np_cumsum_scale (t : R) (l : list R) :
  np_cumsum (map (fun v => t * v) l) = map (fun v => t * v) (np_cumsum l).
Proof.
  destruct l as [|a l]; [reflexivity|].
  cbn [np_cumsum map]. now rewrite accumulate_scale.
Qed.

(** The baseline moment in closed form. *)
Lemma baseline_eq (c q : list R) :
  baseline c q =
  match np_linalg_norm c OrdInf,
        np_linalg_norm (np_cumsum (np_cumsum q)) OrdInf with
  | Ok nc, Ok nm =>
      Ok (map (fun v => v * (nc / nm)) (np_cumsum (np_cumsum q)))
  | Ok _, Raise e => Raise e
  | Raise e, _ => Raise e
  end.
Proof.
  unfold baseline.
  destruct (np_linalg_norm c OrdInf) as [nc|e]; cbn [rbind]; [|reflexivity].
  destruct (np_linalg_norm (np_cumsum (np_cumsum q)) OrdInf) as [nm|e];
    cbn [rbind]; [|reflexivity].
  now rewrite ExactFacts.scale_by_ratio.
Qed.

(** After the normalisation the baseline moment has the infinity norm of
    the curvature, provided the double cumulative sum of the load is not
    zero everywhere. *)
Theorem baseline_has_the_norm_of_c (c q : list R) (nm : R) :
  c <> [] ->
  np_linalg_norm (np_cumsum (np_cumsum q)) OrdInf = Ok nm -> nm <> 0 ->
  exists m_,
    baseline c q = Ok m_ /\
    np_linalg_norm m_ OrdInf = np_linalg_norm c OrdInf.
Proof.
  intros Hc Hnm Hne.
  destruct (norm_inf_nonempty Hc) as [nc Hnc].
  pose proof (norm_inf_nonneg _ Hnc) as Hnc0.
  pose proof (norm_inf_nonneg _ Hnm) as Hnm0.
  rewrite baseline_eq, Hnc, Hnm. eexists; split; [reflexivity|].
  rewrite (map_ext (fun v => v * (nc / nm)) (fun v => nc / nm * v))
    by (intros v; ring).
  rewrite norm_inf_scale, Hnm. f_equal.
  assert (Ht : 0 <= nc / nm)
    by (apply Rmult_le_pos; [lra|apply Rlt_le, Rinv_0_lt_compat; lra]).
  rewrite Rabs_pos_eq by exact Ht. field; exact Hne.
Qed.

(** The baseline moment sees the shape of the load only: a positive
    factor on [q] changes nothing, a negative one flips the sign. *)
Theorem baseline_ignores_the_size_of_the_load (c q : list R) (a : R) :
  (0 < a -> baseline c (map (fun v => a * v) q) = baseline c q) /\
  (a < 0 ->
   baseline c (map (fun v => a * v) q) =
   match baseline c q with
   | Ok m_ => Ok (map Ropp m_)
   | Raise e => Raise e
   end).
Proof.
  assert (H : a <> 0 ->
    baseline c (map (fun v => a * v) q) =
    match baseline c q with
    | Ok m_ => Ok (map (fun v => a / Rabs a * v) m_)
    | Raise e => Raise e
    end).
  { intros Ha. rewrite !baseline_eq, !np_cumsum_scale, norm_inf_scale.
    destruct (np_linalg_norm c OrdInf) as [nc|e]; [|reflexivity].
    destruct (np_linalg_norm (np_cumsum (np_cumsum q)) OrdInf) as [nm|e];
      [|reflexivity].
    f_equal. rewrite !map_map. apply map_ext; intros v.
    unfold Rdiv. rewrite Rinv_mult. ring. }
  split; intros Ha; rewrite H by lra.
  - destruct (baseline c q) as [m_|e]; [|reflexivity]. f_equal.
    rewrite <- (map_id m_) at 2. apply map_ext; intros v.
    rewrite Rabs_pos_eq by lra. field; lra.
  - destruct (baseline c q) as [m_|e]; [|reflexivity]. f_equal.
    apply map_ext; intros v. rewrite Rabs_left by exact Ha. field; lra.
Qed.

(** A factor on the curvature scales the baseline moment by its absolute
    value. *)
Theorem baseline_scales_with_the_curvature (c q : list R) (a : R) :
  baseline (map (fun v => a * v) c) q =
  match baseline c q with
  | Ok m_ => Ok (map (fun v => Rabs a * v) m_)
  | Raise e => Raise e
  end.
Proof.
  rewrite !baseline_eq, norm_inf_scale.
  destruct (np_linalg_norm c OrdInf) as [nc|e]; [|reflexivity].
  destruct (np_linalg_norm (np_cumsum (np_cumsum q)) OrdInf) as [nm|e];
    [|reflexivity].
  f_equal. rewrite map_map. apply map_ext; intros v. unfold Rdiv; ring.
Qed.

End Release.

End ExactScaling.

(** ** Exact arithmetic: a loss of zero, and what is returned *)

Module ExactModel.

Import Exact SpecWords ExactLoss.
Local Open Scope R_scope.

Section Release.

Context {numpy : NumPy}.

Lemma sum_list_zero_iff (l : list R) :
  (forall v, In v l -> 0 <= v) ->
  (sum_list l = 0 <-> forall v, In v l -> v = 0).
Proof.
  induction l as [|a l IH]; intros Hpos; simpl.
  - split; [intros _ v []|reflexivity].
  - assert (Ha : 0 <= a) by (apply Hpos; now left).
    assert (Hl : forall v, In v l -> 0 <= v) by (intros v Hv; apply Hpos; now right).
    pose proof (sum_list_nonneg l Hl) as Hs.
    split.
    + intros E v [<-|Hv]; [lra|]. apply (proj1 (IH Hl)); [lra|exact Hv].
    + intros Hz. rewrite (Hz a) by now left.
      rewrite (proj2 (IH Hl)) by (intros v Hv; apply Hz; now right). lra.
Qed.

Lemma pow_zero_iff (v : R) (k : nat) : (1 <= k)%nat -> (v ^ k = 0 <-> v = 0).
Proof.
  intros Hk; split.
  - intros E. destruct (Req_dec v 0) as [Hz|Hnz]; [exact Hz|].
    now apply (pow_nonzero v k) in Hnz.
  - intros ->. apply pow_i; lia.
Qed.

Lemma Rabs_zero_iff (v : R) : Rabs v = 0 <-> v = 0.
Proof.
  split; [|intros ->; apply Rabs_R0].
  intros E. destruct (Req_dec v 0) as [Hz|Hnz]; [exact Hz|].
  now apply Rabs_no_R0 in Hnz.
Qed.

(** All residuals vanish exactly when the model reproduces the curvature
    at every position. *)
Lemma residuals_vanish_iff (k s m0 : R) (c m_ : list R) :
  (forall e, In e (residuals (k, s, m0) c m_) -> e = 0) <->
  (forall i, (i < length c)%nat ->
     nth i c 0 = (nth i m_ 0 + m0 + INR i * s) / k).
Proof.
  unfold residuals; split.
  - intros Hz i Hi.
    assert (Hr : residual (k, s, m0) c m_ i = 0).
    { apply Hz, in_map_iff. exists i; split; [reflexivity|].
      apply in_seq; lia. }
    unfold residual in Hr. lra.
  - intros Hz e He. apply in_map_iff in He as (i & <- & Hi).
    apply in_seq in Hi. unfold residual. rewrite (Hz i) by lia. lra.
Qed.

(** For sequences of one length [n], and an order that is an integer
    [p >= 1] or, with [n >= 1], infinity: the loss is never negative, and
    it is zero exactly when the model reproduces the curvature at every
    position, [c[i] = (m_[i] + m_0 + i * s_0) / dyn_stiff]. *)
Theorem loss_is_zero_iff_the_model_is_exact
    (dyn_stiff s_0 m_0 : R) (c m_ : list R) (norm : Ord) (n : nat) :
  length c = n -> length m_ = n ->
  (exists p, norm = OrdInt p /\ (1 <= p)%Z) \/ (norm = OrdInf /\ (1 <= n)%nat) ->
  exists v,
    fun_ (dyn_stiff, s_0, m_0) c m_ norm = Ok v /\
    0 <= v /\
    (v = 0 <->
     forall i, (i < n)%nat ->
       nth i c 0 = (nth i m_ 0 + m_0 + INR i * s_0) / dyn_stiff).
Proof.
  intros Hc Hm Hnorm.
  assert (E : length c = length m_) by congruence.
  rewrite (@fun_residuals numpy (dyn_stiff, s_0, m_0) c m_ norm E).
  subst n.
  pose proof (residuals_vanish_iff dyn_stiff s_0 m_0 c m_) as HR.
  destruct Hnorm as [(p & -> & Hp)|[-> Hn]].
  - destruct (p_norm_spec (residuals (dyn_stiff, s_0, m_0) c m_) Hp)
      as (v & Ev & Hv & Hpow).
    exists v. split; [exact Ev|]. split; [exact Hv|].
    assert (Hk : (1 <= Z.to_nat p)%nat) by lia.
    rewrite <- HR, <- (pow_zero_iff v Hk), Hpow. unfold sum_abs_pow.
    rewrite sum_list_zero_iff.
    2:{ intros w Hw. apply in_map_iff in Hw as (e & <- & _).
        apply pow_le, Rabs_pos. }
    split.
    + intros Hz e He. apply Rabs_zero_iff, (pow_zero_iff _ Hk), Hz.
      apply in_map_iff; eauto.
    + intros Hz w Hw. apply in_map_iff in Hw as (e & <- & He).
      apply (pow_zero_iff _ Hk), Rabs_zero_iff, Hz, He.
  - assert (Hne : residuals (dyn_stiff, s_0, m_0) c m_ <> []).
    { intros H0. apply (f_equal (@length _)) in H0. unfold residuals in H0.
      rewrite length_map, length_seq in H0. simpl in H0. lia. }
    destruct (ExactFacts.norm_inf_max_abs Hne) as (v & Ev & (x & Hx & Hxv) & Hall).
    exists v. split; [exact Ev|].
    split; [rewrite <- Hxv; apply Rabs_pos|]. rewrite <- HR. split.
    + intros Hv e He. apply Rabs_zero_iff.
      pose proof (Hall e He). pose proof (Rabs_pos e). lra.
    + intros Hz. rewrite <- Hxv. apply Rabs_zero_iff, Hz, Hx.
Qed.

(** In every run of [synthesis] that returns, the dictionary holds the
    three fitted parameters and nothing else, the second sequence is the
    baseline moment of [c] and [q], and the other two follow from it and
    the parameters: [m[i] = m_[i] + m_0 + i * s_0] and
    [c_h[i] = m[i] / dyn_stiff]. *)
Theorem outputs_follow_the_parameters (solver : Solver R) (c q : list R)
    (g1 g2 g3 : R) (norm : Ord) (b1 b2 b3 b4 b5 b6 : bound R)
    (c_h m_ m : list R) (d : list (string * R)) :
  run solver (synthesis c q g1 g2 g3 norm b1 b2 b3 b4 b5 b6)
    = Ok (c_h, m_, m, d) ->
  exists dyn_stiff s_0 m_0,
    d = [("dyn_stiff", dyn_stiff); ("s_0", s_0); ("m_0", m_0)]%string /\
    baseline c q = Ok m_ /\
    forall i, (i < length q)%nat ->
      nth i m 0 = nth i m_ 0 + m_0 + INR i * s_0 /\
      nth i c_h 0 = nth i m 0 / dyn_stiff.
Proof.
  intros Hrun.
  destruct (baseline c q) as [b|e] eqn:Hb.
  2:{ rewrite synthesis_throws with (e := e) in Hrun by exact Hb.
      discriminate. }
  rewrite synthesis_run with (m_ := b) in Hrun by exact Hb.
  destruct (answer solver _) as [rA|e]; simpl in Hrun; [|discriminate].
  destruct (answer solver _) as [rB|e]; simpl in Hrun; [|discriminate].
  unfold finish in Hrun. destruct (res_x rB) as [[k s] m0].
  injection Hrun as <- <- <- <-.
  exists k, s, m0. split; [reflexivity|]. split; [reflexivity|].
  intros i Hi. rewrite <- (baseline_length _ _ Hb) in Hi.
  assert (Hm : nth i (zip_with f_add (arr_add_s b m0)
                        (iarr_mul_s (np_arange (length b)) s)) 0
               = nth i b 0 + m0 + INR i * s).
  { rewrite nth_zip_with;
      [|unfold arr_add_s; rewrite length_map; lia
       |unfold iarr_mul_s; rewrite length_map, np_arange_length; lia].
    unfold arr_add_s, iarr_mul_s, np_arange.
    rewrite nth_map_lt with (d := 0) by lia.
    rewrite nth_map_lt with (d := 0%Z)
      by (rewrite length_map, length_seq; lia).
    rewrite nth_map_lt with (d := 0%nat) by (rewrite length_seq; lia).
    rewrite seq_nth by lia. cbn [Nat.add f_add f_mul f_of_Z Scalar_R].
    now rewrite <- INR_IZR_INZ. }
  split; [exact Hm|].
  pose proof (@moment_length R Scalar_R b m0 s) as HL.
  cbn [f_add Scalar_R] in HL.
  unfold arr_div_s. rewrite nth_map_lt with (d := 0) by (rewrite HL; lia).
  reflexivity.
Qed.

Lemma moment_scale (t k s m0 : R) (m_ : list R) (i0 : nat) :
  t <> 0 ->
  arr_div_s
    (zip_with f_add (arr_add_s (map (fun v => t * v) m_) (t * m0))
              (iarr_mul_s (map Z.of_nat (seq i0 (length m_))) (t * s)))
    (t * k)
  = arr_div_s
      (zip_with f_add (arr_add_s m_ m0)
                (iarr_mul_s (map Z.of_nat (seq i0 (length m_))) s))
      k.
Proof.
  intros Ht. revert i0; induction m_ as [|a m_ IH]; intros i0;
    [reflexivity|].
  cbn [length seq map arr_add_s iarr_mul_s zip_with arr_div_s
       f_add f_mul f_div f_of_Z Scalar_R].
  f_equal; [|apply (IH (S i0))].
  unfold Rdiv. rewrite Rinv_mult. generalize (/ k); intros ik.
  field; exact Ht.
Qed.

(** The loss has no unit of its own: with the baseline moment and the
    three parameters multiplied by one factor [t <> 0], the loss is the
    same, at every order.  The normalisation of the baseline moment fixes
    the unit in which [dyn_stiff], [s_0] and [m_0] come out. *)
Theorem loss_keeps_under_a_common_factor
    (t dyn_stiff s_0 m_0 : R) (c m_ : list R) (norm : Ord) :
  t <> 0 ->
  fun_ (t * dyn_stiff, t * s_0, t * m_0) c (map (fun v => t * v) m_) norm
  = fun_ (dyn_stiff, s_0, m_0) c m_ norm.
Proof.
  intros Ht. unfold fun_, np_arange. rewrite length_map.
  pose proof (@moment_scale t dyn_stiff s_0 m_0 m_ 0 Ht) as H.
  cbn [f_add f_mul f_div f_of_Z Scalar_R] in *.
  now rewrite H.
Qed.

(** With the order 0 the loss counts: it is the number of positions at
    which the model does not reproduce the curvature, a whole number
    between 0 and [n]. *)
Theorem loss_at_order_0_counts_the_misfits
    (x : Params R) (c m_ : list R) (n : nat) :
  length c = n -> length m_ = n ->
  exists k : nat,
    fun_ x c m_ (OrdInt 0) = Ok (INR k) /\
    (k <= n)%nat /\
    k = length (filter (fun e => if Req_dec_T e 0 then false else true)
                       (residuals x c m_)).
Proof.
  intros Hc Hm.
  assert (E : length c = length m_) by congruence.
  rewrite (@fun_residuals numpy x c m_ (OrdInt 0) E).
  assert (Hl : length (residuals x c m_) = n)
    by (unfold residuals; now rewrite length_map, length_seq).
  eexists; split; [|split; [|reflexivity]].
  - cbn [np_linalg_norm Z.eqb]. f_equal. rewrite np_sum_sum_list.
    cbn [f_nonzero f_of_Z Scalar_R]. clear Hl.
    induction (residuals x c m_) as [|e l IH]; [reflexivity|].
    cbn [map sum_list fold_right filter]. fold (sum_list (map
      (fun v => if if Req_dec_T v 0 then false else true then 1 else 0) l)).
    rewrite IH. destruct (Req_dec_T e 0); [lra|].
    cbn [length]. rewrite S_INR. lra.
  - rewrite <- Hl. apply filter_length_le.
Qed.

End Release.

End ExactModel.

(** ** IEEE arithmetic: a baseline moment of NaN *)

Module NaNBaseline.

Import Binary64.

Lemma add_zeros (x y : float64) :
  is_zero x = true -> is_zero y = true -> is_zero (SFadd prec emax x y) = true.
Proof.
  destruct x as [s|s| |s m e], y as [t|t| |t m' e']; simpl; intros H1 H2;
    try discriminate; destruct s, t; reflexivity.
Qed.

Lemma zero_times_over_zero (m nc : float64) :
  is_zero m = true ->
  SFdiv prec emax (SFmul prec emax m nc) (S754_zero false) = nan.
Proof.
  destruct m as [s|s| |s n e], nc as [t|t| |t n' e']; simpl; intros H;
    try discriminate; reflexivity.
Qed.

Lemma add_nan_r (x : float64) : SFadd prec emax x nan = nan.
Proof. now destruct x. Qed.

Lemma sub_nan (x : float64) : SFsub prec emax x nan = nan.
Proof. now destruct x. Qed.

Lemma mul_nan_r (x : float64) : SFmul prec emax x nan = nan.
Proof. now destruct x. Qed.

Lemma div_nan_r (x : float64) : SFdiv prec emax x nan = nan.
Proof. now destruct x. Qed.

Lemma fmax_nan_r (x : float64) : fmax x nan = nan.
Proof. now destruct x. Qed.

Lemma fold_fmax_from_nan (l : list float64) : fold_left fmax l nan = nan.
Proof. induction l as [|a l IH]; [reflexivity|exact IH]. Qed.

Lemma fold_fmax_in_nan (l : list float64) (a : float64) :
  In nan l -> fold_left fmax l a = nan.
Proof.
  revert a; induction l as [|b l IH]; intros a; [intros []|].
  intros [->|H]; cbn [fold_left].
  - rewrite fmax_nan_r. apply fold_fmax_from_nan.
  - now apply IH.
Qed.

Lemma map_all_nan (f : float64 -> float64) (l : list float64) :
  (forall v, f v = nan) -> map f l = repeat nan (length l).
Proof.
  intros H; induction l as [|a l IH]; simpl; [reflexivity|].
  now rewrite H, IH.
Qed.

Lemma map_repeat_nan (f : float64 -> float64) (n : nat) :
  f nan = nan -> map f (repeat nan n) = repeat nan n.
Proof.
  intros H; induction n as [|n IH]; simpl; [reflexivity|]. now rewrite H, IH.
Qed.

Section Libm.

Variable pow : float64 -> float64 -> float64.

Context {numpy : NumPy}.

Let SF64 : Scalar float64 := Scalar_float64 pow.

Lemma accumulate_zeros (l : list float64) (acc : float64) :
  is_zero acc = true -> Forall (fun v => is_zero v = true) l ->
  Forall (fun v => is_zero v = true) (@accumulate _ SF64 acc l).
Proof.
  revert acc; induction l as [|a l IH]; intros acc Ha Hl; simpl;
    [constructor|].
  inversion Hl; subst.
  assert (is_zero (SFadd prec emax acc a) = true) by now apply add_zeros.
  constructor; [assumption|now apply IH].
Qed.

Lemma np_cumsum_zeros (l : list float64) :
  Forall (fun v => is_zero v = true) l ->
  Forall (fun v => is_zero v = true) (@np_cumsum _ SF64 l).
Proof.
  intros H; destruct l as [|a l]; [constructor|]. inversion H; subst.
  cbn [np_cumsum]. constructor; [assumption|now apply accumulate_zeros].
Qed.

Lemma fold_fmax_zeros (l : list float64) :
  Forall (fun v => is_zero v = true) l ->
  fold_left fmax (map SFabs l) (S754_zero false) = S754_zero false.
Proof.
  induction 1 as [|a l Ha Hl IH]; [reflexivity|].
  destruct a; try discriminate. exact IH.
Qed.

Lemma norm_inf_zeros (l : list float64) :
  l <> [] -> Forall (fun v => is_zero v = true) l ->
  @np_linalg_norm _ SF64 l OrdInf = Ok (S754_zero false).
Proof.
  destruct l as [|a l]; [congruence|intros _ H]. inversion H; subst.
  unfold SF64. rewrite ZeroStiffness.norm_inf_cons_binary64.
  destruct a; try discriminate. simpl SFabs. now rewrite fold_fmax_zeros.
Qed.

(** A NaN among the items is handed on by the running sum and by the
    infinity norm. *)
Lemma accumulate_in_nan (l : list float64) (acc : float64) :
  In nan l -> In nan (@accumulate _ SF64 acc l).
Proof.
  revert acc; induction l as [|a l IH]; intros acc; [intros []|].
  intros [->|H]; simpl.
  - left. apply add_nan_r.
  - right. now apply IH.
Qed.

Lemma np_cumsum_in_nan (l : list float64) :
  In nan l -> In nan (@np_cumsum _ SF64 l).
Proof.
  destruct l as [|a l]; [intros []|]. intros [->|H]; cbn [np_cumsum].
  - now left.
  - right. now apply accumulate_in_nan.
Qed.

Lemma norm_inf_in_nan (l : list float64) :
  In nan l -> @np_linalg_norm _ SF64 l OrdInf = Ok nan.
Proof.
  destruct l as [|a l]; [intros []|]. unfold SF64.
  intros [->|H]; rewrite ZeroStiffness.norm_inf_cons_binary64; f_equal.
  - apply fold_fmax_from_nan.
  - apply fold_fmax_in_nan. change nan with (SFabs nan). now apply in_map.
Qed.

(** The residual against a baseline of NaN is NaN at every position. *)
Lemma error_all_nan (k s m0 : float64) (c : list float64) :
  @zip_with float64 (@f_sub _ SF64) c
    (@arr_div_s _ SF64
       (zip_with (@f_add _ SF64) (@arr_add_s _ SF64 (repeat nan (length c)) m0)
                 (@iarr_mul_s _ SF64 (np_arange (length c)) s)) k)
  = repeat nan (length c).
Proof.
  unfold np_arange. generalize 0 at 1.
  induction c as [|x c IH]; intros i; [reflexivity|].
  cbn [length repeat seq map arr_add_s iarr_mul_s arr_div_s zip_with].
  f_equal; [cbn; apply sub_nan|]. apply (IH (S i)).
Qed.

Lemma sum_all_nan (n : nat) :
  1 <= n -> @np_sum _ SF64 (repeat nan n) = nan.
Proof.
  destruct n as [|n]; [lia|intros _]. cbn [repeat np_sum].
  induction n as [|n IH]; [reflexivity|exact IH].
Qed.

(** The loss against a baseline of NaN. *)
Lemma loss_all_nan (x : Params float64) (c : list float64) (n : nat) (ord : Ord) :
  length c = n -> 1 <= n ->
  ord = OrdInt 1 \/ ord = OrdInt 2 \/ ord = OrdInf ->
  @fun_ _ SF64 x c (repeat nan n) ord = Ok nan.
Proof.
  intros Hc Hn Hord. destruct x as [[k s] m0]. unfold fun_.
  rewrite repeat_length. rewrite broadcast_equal
    by (unfold arr_div_s; rewrite length_map, <- Hc;
        rewrite <- (repeat_length nan (length c)) at 3;
        now rewrite moment_length, repeat_length).
  cbn [rbind]. rewrite <- Hc, error_all_nan, Hc.
  destruct Hord as [->|[->| ->]].
  - cbn [np_linalg_norm Z.eqb Pos.eqb rbind].
    rewrite (map_repeat_nan (@f_abs _ SF64)) by reflexivity.
    now rewrite sum_all_nan.
  - cbn [np_linalg_norm Z.eqb Pos.eqb rbind].
    rewrite (map_repeat_nan (fun v => @f_mul _ SF64 v v)) by reflexivity.
    now rewrite sum_all_nan.
  - destruct n as [|n]; [lia|]. cbn [repeat]. unfold SF64.
    rewrite ZeroStiffness.norm_inf_cons_binary64.
    rewrite (map_repeat_nan SFabs) by reflexivity.
    cbn [rbind]. now rewrite fold_fmax_from_nan.
Qed.

(** What is built from a baseline of NaN is NaN. *)
Lemma finish_all_nan (n : nat) (k s m0 : float64) :
  @finish _ SF64 (repeat nan n) (k, s, m0) =
  (repeat nan n, repeat nan n, repeat nan n,
   [("dyn_stiff", k); ("s_0", s); ("m_0", m0)]%string).
Proof.
  unfold finish. rewrite repeat_length.
  assert (Hm : zip_with (@f_add _ SF64) (@arr_add_s _ SF64 (repeat nan n) m0)
                 (@iarr_mul_s _ SF64 (np_arange n) s) = repeat nan n).
  { unfold np_arange. generalize 0 at 1.
    induction n as [|n IH]; intros i; [reflexivity|].
    cbn [repeat seq map arr_add_s iarr_mul_s zip_with].
    f_equal; try reflexivity. apply (IH (S i)). }
  rewrite Hm. unfold arr_div_s.
  now rewrite (map_repeat_nan (fun v => @f_div _ SF64 v k)) by reflexivity.
Qed.

Section Call.

Variables (c q : list float64) (n : nat) (g1 g2 g3 : float64) (norm : Ord).
Variables (b1 b2 b3 b4 b5 b6 : bound float64).

(** Once the baseline moment is NaN, nothing stops the call: the minimizer
    is handed the NaN, the loss is NaN at every point, and every run that
    returns returns NaN for [c_h], [m_] and [m]. *)
Lemma nan_baseline_goes_through :
  @baseline _ SF64 c q = Ok (repeat nan n) -> length c = n -> 1 <= n ->
  (exists callA,
     first_call (@synthesis _ SF64 c q g1 g2 g3 norm b1 b2 b3 b4 b5 b6)
       = Some callA /\
     call_m_ callA = repeat nan n) /\
  (forall x ord, ord = OrdInt 1 \/ ord = OrdInt 2 \/ ord = OrdInf ->
     @fun_ _ SF64 x c (repeat nan n) ord = Ok nan) /\
  (forall solver c_h m_ m d,
     run solver (@synthesis _ SF64 c q g1 g2 g3 norm b1 b2 b3 b4 b5 b6)
       = Ok (c_h, m_, m, d) ->
     c_h = repeat nan n /\ m_ = repeat nan n /\ m = repeat nan n).
Proof.
  intros Hb Hc Hn. split; [|split].
  - eexists; split; [apply synthesis_stage_A; exact Hb|reflexivity].
  - intros x ord Hord. now apply loss_all_nan.
  - intros solver c_h m_ m d Hrun.
    rewrite synthesis_run with (m_ := repeat nan n) in Hrun by exact Hb.
    destruct (answer solver _) as [rA|e]; simpl in Hrun; [|discriminate].
    destruct (answer solver _) as [rB|e]; simpl in Hrun; [|discriminate].
    destruct (res_x rB) as [[k s] m0]. rewrite finish_all_nan in Hrun.
    injection Hrun as <- <- <- <-. auto.
Qed.

(** With a load of zeros ([+0.0] or [-0.0]), and [c] of the same length
    [n >= 1]: nothing is raised; the normalisation divides zero by zero and
    the baseline moment is NaN at every position. It is handed to the
    minimizer as it is, the loss is NaN at every point for the orders 1, 2
    and infinity, and every run that returns returns NaN sequences. *)
Theorem zero_load_gives_a_nan_baseline :
  Forall (fun v => is_zero v = true) q ->
  length c = n -> length q = n -> 1 <= n ->
  @baseline _ SF64 c q = Ok (repeat nan n) /\
  (exists callA,
     first_call (@synthesis _ SF64 c q g1 g2 g3 norm b1 b2 b3 b4 b5 b6)
       = Some callA /\
     call_m_ callA = repeat nan n) /\
  (forall x ord, ord = OrdInt 1 \/ ord = OrdInt 2 \/ ord = OrdInf ->
     @fun_ _ SF64 x c (repeat nan n) ord = Ok nan) /\
  (forall solver c_h m_ m d,
     run solver (@synthesis _ SF64 c q g1 g2 g3 norm b1 b2 b3 b4 b5 b6)
       = Ok (c_h, m_, m, d) ->
     c_h = repeat nan n /\ m_ = repeat nan n /\ m = repeat nan n).
Proof.
  intros Hz Hc Hq Hn.
  assert (Hc' : c <> []) by (intros E; rewrite E in Hc; simpl in Hc; lia).
  assert (Hq' : q <> []) by (intros E; rewrite E in Hq; simpl in Hq; lia).
  assert (Hb : @baseline _ SF64 c q = Ok (repeat nan n)).
  { unfold baseline.
    destruct (@norm_inf_nonempty _ SF64 c Hc') as [nc ->]. cbn [rbind].
    pose proof (np_cumsum_zeros (np_cumsum_zeros Hz)) as Hzz.
    rewrite norm_inf_zeros;
      [|now apply np_cumsum_nonempty, np_cumsum_nonempty|exact Hzz].
    cbn [rbind]. f_equal. unfold arr_div_s, arr_mul_s. rewrite map_map.
    change (map (fun v => SFdiv prec emax (SFmul prec emax v nc) (S754_zero false))
                (@np_cumsum _ SF64 (@np_cumsum _ SF64 q)) = repeat nan n).
    rewrite <- Hq, <- (@np_cumsum_length _ SF64 q),
      <- (@np_cumsum_length _ SF64 (@np_cumsum _ SF64 q)).
    clear - Hzz. induction Hzz as [|a l Ha Hl IH]; simpl; [reflexivity|].
    now rewrite IH, zero_times_over_zero. }
  split; [exact Hb|]. now apply nan_baseline_goes_through.
Qed.

(** One NaN sample, in the curvature or in the load, spoils the whole
    call without an error: with [c] and [q] of one length [n >= 1], the
    baseline moment is NaN at every position, it is handed to the
    minimizer as it is, the loss is NaN at every point for the orders 1, 2
    and infinity, and every run that returns returns NaN sequences. *)
Theorem a_nan_sample_spoils_the_call :
  In nan c \/ In nan q ->
  length c = n -> length q = n -> 1 <= n ->
  @baseline _ SF64 c q = Ok (repeat nan n) /\
  (exists callA,
     first_call (@synthesis _ SF64 c q g1 g2 g3 norm b1 b2 b3 b4 b5 b6)
       = Some callA /\
     call_m_ callA = repeat nan n) /\
  (forall x ord, ord = OrdInt 1 \/ ord = OrdInt 2 \/ ord = OrdInf ->
     @fun_ _ SF64 x c (repeat nan n) ord = Ok nan) /\
  (forall solver c_h m_ m d,
     run solver (@synthesis _ SF64 c q g1 g2 g3 norm b1 b2 b3 b4 b5 b6)
       = Ok (c_h, m_, m, d) ->
     c_h = repeat nan n /\ m_ = repeat nan n /\ m = repeat nan n).
Proof.
  intros Hnan Hc Hq Hn.
  assert (Hc' : c <> []) by (intros E; rewrite E in Hc; simpl in Hc; lia).
  assert (Hq' : q <> []) by (intros E; rewrite E in Hq; simpl in Hq; lia).
  assert (Hm' : @np_cumsum _ SF64 (@np_cumsum _ SF64 q) <> [])
    by now apply np_cumsum_nonempty, np_cumsum_nonempty.
  assert (Hlen : length (@np_cumsum _ SF64 (@np_cumsum _ SF64 q)) = n)
    by now rewrite !(@np_cumsum_length _ SF64).
  assert (Hb : @baseline _ SF64 c q = Ok (repeat nan n)).
  { unfold baseline. destruct Hnan as [H|H].
    - rewrite (norm_inf_in_nan _ H). cbn [rbind].
      destruct (@norm_inf_nonempty _ SF64 _ Hm') as [nm ->]. cbn [rbind].
      f_equal. unfold arr_div_s, arr_mul_s. rewrite map_map, <- Hlen.
      apply map_all_nan. intros v.
      change (SFdiv prec emax (SFmul prec emax v nan) nm = nan).
      now rewrite mul_nan_r.
    - destruct (@norm_inf_nonempty _ SF64 c Hc') as [nc ->]. cbn [rbind].
      rewrite (norm_inf_in_nan _ (np_cumsum_in_nan _ (np_cumsum_in_nan _ H))).
      cbn [rbind]. f_equal. unfold arr_div_s, arr_mul_s.
      rewrite map_map, <- Hlen. apply map_all_nan. intros v.
      apply div_nan_r. }
  split; [exact Hb|]. now apply nan_baseline_goes_through.
Qed.

End Call.

End Libm.

End NaNBaseline.

(** ** The further properties at concrete inputs *)

Module MoreInstances.

Import Exact SpecWords Scenarios Today ExactRuns.
Local Open Scope R_scope.

Lemma outputs_have_the_length_of_q_at_1_against_3 :
  run (stop_at_start true) prog_c1_q3 =
    Ok ([1 / 10; 2 / 5; 1], [1 / 10; 2 / 5; 1], [1 / 10; 2 / 5; 1],
        [("dyn_stiff"%string, 1); ("s_0"%string, 0); ("m_0"%string, 0)]) /\
  length [1 / 10; 2 / 5; 1] = length [1; 2; 3] /\
  length [1 / 10; 2 / 5; 1] = length [1; 2; 3] /\
  length [1 / 10; 2 / 5; 1] = length [1; 2; 3].
Proof.
  assert (H : run (stop_at_start true) prog_c1_q3 =
    Ok ([1 / 10; 2 / 5; 1], [1 / 10; 2 / 5; 1], [1 / 10; 2 / 5; 1],
        [("dyn_stiff"%string, 1); ("s_0"%string, 0); ("m_0"%string, 0)]))
    by (cbn; items; r_eval).
  split; [exact H|].
  exact (@outputs_have_the_length_of_q R Scalar_R [1] [1; 2; 3] 1 0 0
           (OrdInt 1) NegInf PosInf NegInf PosInf NegInf PosInf
           (stop_at_start true) _ _ _ _ H).
Defined.

Lemma baseline_has_the_norm_of_c_at_mid_span :
  (c_mid <> [] /\
   np_linalg_norm (np_cumsum (np_cumsum q_mid)) OrdInf = Ok 3 /\
   3 <> 0) /\
  exists m_,
    baseline c_mid q_mid = Ok m_ /\
    np_linalg_norm m_ OrdInf = np_linalg_norm c_mid OrdInf.
Proof.
  assert (H : np_linalg_norm (np_cumsum (np_cumsum q_mid)) OrdInf = Ok 3)
    by (unfold q_mid; cbn; items; r_eval).
  split; [split; [discriminate|split; [exact H|lra]]|].
  apply (@ExactScaling.baseline_has_the_norm_of_c numpy_today c_mid q_mid 3);
    [discriminate|exact H|lra].
Defined.

Lemma baseline_ignores_the_size_of_the_load_at_mid_span :
  0 < 2 /\
  baseline c_mid (map (fun v => 2 * v) q_mid) = baseline c_mid q_mid.
Proof.
  split; [lra|].
  apply (proj1 (ExactScaling.baseline_ignores_the_size_of_the_load
                  c_mid q_mid 2)); lra.
Defined.

Lemma loss_is_zero_iff_the_model_is_exact_at_order_3 :
  (length [1; 2] = 2%nat /\ length [2; 4] = 2%nat /\
   ((exists p, OrdInt 3 = OrdInt p /\ (1 <= p)%Z) \/
    (OrdInt 3 = OrdInf /\ (1 <= 2)%nat))) /\
  exists v,
    fun_ (2, 0, 0) [1; 2] [2; 4] (OrdInt 3) = Ok v /\
    0 <= v /\
    (v = 0 <->
     forall i, (i < 2)%nat ->
       nth i [1; 2] 0 = (nth i [2; 4] 0 + 0 + INR i * 0) / 2).
Proof.
  assert (H : (exists p, OrdInt 3 = OrdInt p /\ (1 <= p)%Z) \/
              (OrdInt 3 = OrdInf /\ (1 <= 2)%nat))
    by (left; exists 3%Z; split; [reflexivity|lia]).
  split; [split; [reflexivity|split; [reflexivity|exact H]]|].
  apply (@ExactModel.loss_is_zero_iff_the_model_is_exact numpy_today
           2 0 0 [1; 2] [2; 4] (OrdInt 3) 2); [reflexivity|reflexivity|exact H].
Defined.

Lemma loss_keeps_under_a_common_factor_at_2 :
  2 <> 0 /\
  fun_ (2 * 1, 2 * 0, 2 * 0) [1; 2] (map (fun v => 2 * v) [1; 3]) (OrdInt 1)
  = fun_ (1, 0, 0) [1; 2] [1; 3] (OrdInt 1).
Proof.
  split; [lra|].
  apply (@ExactModel.loss_keeps_under_a_common_factor numpy_today
           2 1 0 0 [1; 2] [1; 3] (OrdInt 1)); lra.
Defined.

Lemma loss_at_order_0_counts_the_misfits_at_two_samples :
  (length [1; 2] = 2%nat /\ length [1; 3] = 2%nat) /\
  exists k : nat,
    fun_ (1, 0, 0) [1; 2] [1; 3] (OrdInt 0) = Ok (INR k) /\
    (k <= 2)%nat /\
    k = length (filter (fun e => if Req_dec_T e 0 then false else true)
                       (residuals (1, 0, 0) [1; 2] [1; 3])).
Proof.
  split; [split; reflexivity|].
  apply (@ExactModel.loss_at_order_0_counts_the_misfits numpy_today
           (1, 0, 0) [1; 2] [1; 3] 2); reflexivity.
Defined.

Lemma outputs_follow_the_parameters_at_guess_out :
  run (stop_at_start true) prog_guess_out =
    Ok ([1; 2; 3], [1; 2; 3], [1; 2; 3],
        [("dyn_stiff"%string, 1); ("s_0"%string, 0); ("m_0"%string, 0)]) /\
  exists dyn_stiff s_0 m_0,
    [("dyn_stiff"%string, 1); ("s_0"%string, 0); ("m_0"%string, 0)] =
      [("dyn_stiff"%string, dyn_stiff); ("s_0"%string, s_0);
       ("m_0"%string, m_0)] /\
    baseline [1; 2; 3] [1; 0; 0] = Ok [1; 2; 3] /\
    forall i, (i < length [1; 0; 0])%nat ->
      nth i [1; 2; 3] 0 = nth i [1; 2; 3] 0 + m_0 + INR i * s_0 /\
      nth i [1; 2; 3] 0 = nth i [1; 2; 3] 0 / dyn_stiff.
Proof.
  assert (H : run (stop_at_start true) prog_guess_out =
    Ok ([1; 2; 3], [1; 2; 3], [1; 2; 3],
        [("dyn_stiff"%string, 1); ("s_0"%string, 0); ("m_0"%string, 0)]))
    by (cbn; items; r_eval).
  split; [exact H|].
  exact (@ExactModel.outputs_follow_the_parameters numpy_today (stop_at_start true)
           [1; 2; 3] [1; 0; 0] 5 0 0 (OrdInt 1)
           (Fin 0) (Fin 1) NegInf PosInf NegInf PosInf _ _ _ _ H).
Defined.

Import Binary64.

Lemma zero_load_gives_a_nan_baseline_at_two_samples :
  (Forall (fun v => is_zero v = true) [zero; zero] /\
   length [of_Z 1; of_Z 2] = 2%nat /\ length [zero; zero] = 2%nat /\
   (1 <= 2)%nat) /\
  @baseline _ (Scalar_float64 pow_specials) [of_Z 1; of_Z 2] [zero; zero]
    = Ok (repeat nan 2) /\
  (exists callA,
     first_call (@synthesis _ (Scalar_float64 pow_specials)
                   [of_Z 1; of_Z 2] [zero; zero] one zero zero (OrdInt 1)
                   NegInf PosInf NegInf PosInf NegInf PosInf) = Some callA /\
     call_m_ callA = repeat nan 2) /\
  (forall x ord, ord = OrdInt 1 \/ ord = OrdInt 2 \/ ord = OrdInf ->
     @fun_ _ (Scalar_float64 pow_specials) x [of_Z 1; of_Z 2] (repeat nan 2) ord
       = Ok nan) /\
  (forall solver c_h m_ m d,
     run solver (@synthesis _ (Scalar_float64 pow_specials)
                   [of_Z 1; of_Z 2] [zero; zero] one zero zero (OrdInt 1)
                   NegInf PosInf NegInf PosInf NegInf PosInf)
       = Ok (c_h, m_, m, d) ->
     c_h = repeat nan 2 /\ m_ = repeat nan 2 /\ m = repeat nan 2).
Proof.
  split; [repeat split; [repeat constructor|lia]|].
  apply (@NaNBaseline.zero_load_gives_a_nan_baseline pow_specials numpy_today
           [of_Z 1; of_Z 2] [zero; zero] 2 one zero zero (OrdInt 1)
           NegInf PosInf NegInf PosInf NegInf PosInf);
    [repeat constructor|reflexivity|reflexivity|lia].
Defined.

Lemma a_nan_sample_spoils_the_call_at_two_samples :
  ((In nan [of_Z 1; nan] \/ In nan [one; zero]) /\
   length [of_Z 1; nan] = 2%nat /\ length [one; zero] = 2%nat /\
   (1 <= 2)%nat) /\
  @baseline _ (Scalar_float64 pow_specials) [of_Z 1; nan] [one; zero]
    = Ok (repeat nan 2) /\
  (exists callA,
     first_call (@synthesis _ (Scalar_float64 pow_specials)
                   [of_Z 1; nan] [one; zero] one zero zero (OrdInt 1)
                   NegInf PosInf NegInf PosInf NegInf PosInf) = Some callA /\
     call_m_ callA = repeat nan 2) /\
  (forall x ord, ord = OrdInt 1 \/ ord = OrdInt 2 \/ ord = OrdInf ->
     @fun_ _ (Scalar_float64 pow_specials) x [of_Z 1; nan] (repeat nan 2) ord
       = Ok nan) /\
  (forall solver c_h m_ m d,
     run solver (@synthesis _ (Scalar_float64 pow_specials)
                   [of_Z 1; nan] [one; zero] one zero zero (OrdInt 1)
                   NegInf PosInf NegInf PosInf NegInf PosInf)
       = Ok (c_h, m_, m, d) ->
     c_h = repeat nan 2 /\ m_ = repeat nan 2 /\ m = repeat nan 2).
Proof.
  assert (H : In nan [of_Z 1; nan] \/ In nan [one; zero])
    by (left; right; left; reflexivity).
  split; [split; [exact H|repeat split; lia]|].
  apply (@NaNBaseline.a_nan_sample_spoils_the_call pow_specials numpy_today
           [of_Z 1; nan] [one; zero] 2 one zero zero (OrdInt 1)
           NegInf PosInf NegInf PosInf NegInf PosInf);
    [exact H|reflexivity|reflexivity|lia].
Defined.

(** The same in numbers: a load of zeros, and a run that returns NaN. *)
Example zero_load_run_binary64 :
  run (@stop_at_start _ (Scalar_float64 pow_specials) true)
      (@synthesis _ (Scalar_float64 pow_specials)
         [of_Z 1; of_Z 2] [zero; zero] one zero zero (OrdInt 1)
         NegInf PosInf NegInf PosInf NegInf PosInf) =
  Ok ([nan; nan], [nan; nan], [nan; nan],
      [("dyn_stiff"%string, one); ("s_0"%string, zero); ("m_0"%string, zero)]).
Proof. vm_compute. reflexivity. Qed.

End MoreInstances.
